(** * Multigroup cross-section interface (openmc, src/mgxs_interface.cpp)

    A shallow embedding of the C++ interface layer that loads the MGXS
    library, builds the energy-group grid and forwards lookups to the
    [Mgxs] tables, together with the properties its specification states.

    Conventions
    - [int] values are integers of [Z]; signed overflow and reads outside a
      vector are undefined behaviour in C++ and end a run with [Undefined];
    - [double] is the primitive binary64 float of the kernel;
    - [std::vector] is [list], [std::unordered_set] is [gset],
      [std::unordered_map] is [gmap];
    - [fatal_error] ends a run with [FatalError], which keeps the message and
      the process-wide data as they were when it was raised;
    - [write_message] only prints and [file_close], [close_group] only release
      handles: they are left out. *)

From Stdlib Require Import ZArith Floats Ascii.
From stdpp Require Import base numbers option list gmap strings.

Local Open Scope Z_scope.

(** ** C++ scalars and containers *)

Module Cxx.

Definition INT_MIN : Z := - 2 ^ 31.
Definition INT_MAX : Z := 2 ^ 31 - 1.

(** [a - b] on [std::size_t]: unsigned, modulo [2 ^ 64]. *)
Definition size_t_sub (a b : Z) : Z := (a - b) `mod` 2 ^ 64.

(** [v[i]] for an [int] or [size_t] index: [None] outside [0 .. size-1]. *)
Definition vec_at {A : Type} (v : list A) (i : Z) : option A :=
  if decide (0 ≤ i) then v !! Z.to_nat i else None.

(** [x - 1] on [int]: [None] when it would overflow. *)
Definition int_pred (x : Z) : option Z :=
  if decide (INT_MIN < x) then Some (x - 1) else None.

End Cxx.
Import Cxx.

(** ** C strings *)

Module CString.

Definition NUL : ascii := Ascii.zero.

(** [std::strlen(s)] on the array [s]: the position of its first NUL; [None]
    when the array holds none, and the scan leaves it. *)
Fixpoint strlen (s : list ascii) : option nat :=
  match s with
  | [] => None
  | c :: s' => if decide (c = NUL) then Some 0%nat else S <$> strlen s'
  end.

(** [std::strcpy(dest, src)]: the characters of [src] through its first NUL
    replace the first ones of [dest]; [None] when [dest] is too short. *)
Definition strcpy (dest src : list ascii) : option (list ascii) :=
  n ← strlen src;
  if decide (S n ≤ length dest)%nat
  then Some (take (S n) src ++ drop (S n) dest)
  else None.

(** [s.c_str()] for a [std::string]. *)
Definition c_str (s : string) : list ascii :=
  String.list_ascii_of_string s ++ [NUL].

(** [std::string(count, c)] *)
Definition string_fill (count : nat) (c : ascii) : string :=
  String.string_of_list_ascii (replicate count c).

(** How a call ends when it can throw: a return, an exception that leaves
    the function, or undefined behaviour. *)
Inductive call_result (A : Type) :=
| Done (a : A)
| Throws (what : string)
| UB.
Global Arguments Done {A} a.
Global Arguments Throws {A} what.
Global Arguments UB {A}.

End CString.
Import CString.

Definition double : Type := float.

(** ** The library file, as the HDF5 helpers show it

    The helpers of hdf5_interface.h are not under src/.  A library file is
    taken as the spec describes it: the attributes [filetype] and [version],
    the attributes [energy_groups] and [group structure], which may be
    missing, and one named top-level group per dataset. *)

Section Hdf5.
(** [G] is what one top-level dataset group holds. *)
Context {G : Type}.

(** Modelled from the spec: the content of a library file. *)
Record hdf5_file := Hdf5File {
  attr_filetype : string;
  attr_version : Z * Z;
  attr_energy_groups : option Z;
  attr_group_structure : option (list double);
  file_groups : list (string * G)
}.

(** Modelled from the spec: [group_names(file_id)], the names of the
    top-level groups. *)
Definition group_names (f : hdf5_file) : list string := (file_groups f).*1.

(** Modelled from the spec: [open_group(file_id, name)], the group of that
    name. *)
Definition open_group (f : hdf5_file) (name : string) : option G :=
  (λ r, r.2.2) <$> list_find (λ g, g.1 = name) (file_groups f).

(** Modelled from the spec: [object_exists(file_id, name)], whether the file
    has a group of that name. *)
Definition object_exists (f : hdf5_file) (name : string) : bool :=
  bool_decide (name ∈ group_names f).

End Hdf5.
Global Arguments hdf5_file : clear implicits.

(** ** The [Mgxs] class

    mgxs_interface.cpp uses the class through its three constructors, the
    fields [name], [awr] and [fissionable], and its lookup methods; the class
    itself is declared elsewhere, so it enters as an interface. *)

(** Addresses of the caller's [int] objects. *)
Abbreviation addr := positive.
Abbreviation int_mem := (gmap addr Z).

Class MgxsClass (G Mgxs : Type) := {
  (** [Mgxs(hid_t xs_id, const std::vector<double>& temperature)], given the
      opened group as its name and content. *)
  Mgxs_from_hdf5 : string → G → list double → Mgxs;
  (** [Mgxs(name, temperature, micros, atom_densities)] for a material. *)
  Mgxs_macro : string → list double → list Mgxs → list double → Mgxs;
  (** [Mgxs()], the blank entry. *)
  Mgxs_blank : Mgxs;
  name : Mgxs → string;
  awr : Mgxs → double;
  fissionable : Mgxs → bool;
  (** [get_xs(xstype, gin, gout, mu, dg)]: [gout] and [dg] are [int*], null
      or the address of an [int] in memory, which the method may read and
      write; [mu] is null or a cosine. *)
  get_xs : Mgxs → Z → Z → option addr → option double → option addr →
           int_mem → double * int_mem
}.

(** What the loader takes from other files of the program. *)
Class Collaborators := {
  (** The supported version pair (constants.h). *)
  VERSION_MGXS_LIBRARY : Z * Z;
  (** [get_temperatures(nuc_temps, dummy)]: fills the per-nuclide
      temperature lists from the geometry; it gets [nuc_temps] sized by the
      nuclide map and leaves the data of this interface alone. *)
  get_temperatures : list (list double) → list (list double)
}.

(** The methods of [Mgxs] that the tracking interface forwards to; each may
    change the cached selection of the table it is called on.  [uvw] is the
    array of three direction cosines. *)
Class MgxsSelection (Mgxs : Type) := {
  (** [calculate_xs(gin, sqrtkT, uvw, total_xs, abs_xs, nu_fiss_xs)]: the
      table after the call and the three values written. *)
  calculate_xs : Mgxs → Z → double → list double →
                 Mgxs * (double * double * double);
  (** [set_angle_index(uvw)] *)
  set_angle_index : Mgxs → list double → Mgxs;
  (** [set_temperature_index(sqrtkT)] *)
  set_temperature_index : Mgxs → double → Mgxs
}.

(** ** Process-wide data *)

Record Material := Mk_Material {
  nuclide_ : list Z;
  fissionable_ : bool
}.

(** [Library::Type]; the interface uses no enumerator but [neutron]. *)
Inductive LibraryType := neutron.

Record Library := Mk_Library {
  type_ : LibraryType;
  materials_ : list string
}.

Section Data.
Context {Mgxs : Type}.

(** The globals of namespaces [settings], [data] and [model] that the
    interface reads or writes. *)
Record globals := Globals {
  path_cross_sections : string;
  nuclide_map : gmap string Z;
  materials : list Material;
  nuclides_MG : list Mgxs;
  macro_xs : list Mgxs;
  num_energy_groups : Z;
  energy_bins : list double;
  energy_bin_avg : list double;
  rev_energy_bins : list double;
  libraries : list Library
}.

Definition set_materials (v : list Material) (st : globals) : globals :=
  Globals (path_cross_sections st) (nuclide_map st) v (nuclides_MG st)
    (macro_xs st) (num_energy_groups st) (energy_bins st)
    (energy_bin_avg st) (rev_energy_bins st) (libraries st).
Definition set_nuclides_MG (v : list Mgxs) (st : globals) : globals :=
  Globals (path_cross_sections st) (nuclide_map st) (materials st) v
    (macro_xs st) (num_energy_groups st) (energy_bins st)
    (energy_bin_avg st) (rev_energy_bins st) (libraries st).
Definition set_macro_xs (v : list Mgxs) (st : globals) : globals :=
  Globals (path_cross_sections st) (nuclide_map st) (materials st)
    (nuclides_MG st) v (num_energy_groups st) (energy_bins st)
    (energy_bin_avg st) (rev_energy_bins st) (libraries st).
Definition set_num_energy_groups (v : Z) (st : globals) : globals :=
  Globals (path_cross_sections st) (nuclide_map st) (materials st)
    (nuclides_MG st) (macro_xs st) v (energy_bins st)
    (energy_bin_avg st) (rev_energy_bins st) (libraries st).
Definition set_energy_bins (v : list double) (st : globals) : globals :=
  Globals (path_cross_sections st) (nuclide_map st) (materials st)
    (nuclides_MG st) (macro_xs st) (num_energy_groups st) v
    (energy_bin_avg st) (rev_energy_bins st) (libraries st).
Definition set_energy_bin_avg (v : list double) (st : globals) : globals :=
  Globals (path_cross_sections st) (nuclide_map st) (materials st)
    (nuclides_MG st) (macro_xs st) (num_energy_groups st) (energy_bins st)
    v (rev_energy_bins st) (libraries st).
Definition set_rev_energy_bins (v : list double) (st : globals) : globals :=
  Globals (path_cross_sections st) (nuclide_map st) (materials st)
    (nuclides_MG st) (macro_xs st) (num_energy_groups st) (energy_bins st)
    (energy_bin_avg st) v (libraries st).
Definition set_libraries (v : list Library) (st : globals) : globals :=
  Globals (path_cross_sections st) (nuclide_map st) (materials st)
    (nuclides_MG st) (macro_xs st) (num_energy_groups st) (energy_bins st)
    (energy_bin_avg st) (rev_energy_bins st) v.

(** The arguments of one call of create_macro_xs_c. *)
Record macro_args := Mk_macro_args {
  arg_mat_name : string;
  arg_n_nuclides : Z;
  arg_i_nuclides : list Z;
  arg_n_temps : Z;
  arg_temps : list double;
  arg_atom_densities : list double;
  arg_tolerance : double;
  arg_method : Z
}.

End Data.
Global Arguments globals : clear implicits.

(** * A small library and model

    A two-group library with a fissionable and a non-fissionable nuclide, and
    a table type just rich enough to run the interface on it. *)

Module SmallModel.

(** A dataset group holds the fissionable flag and the atomic weight ratio. *)
Definition dataset : Type := bool * double.

Record table := Table {
  table_name : string;
  table_awr : double;
  table_fissionable : bool;
  table_kTs : list double;
  table_parts : list string
}.

(** A lookup that returns the weight ratio and overwrites [*gout]. *)
Definition table_get_xs (t : table) (xstype gin : Z) (gout : option addr)
    (mu : option double) (dg : option addr) (mem : int_mem)
  : double * int_mem :=
  (table_awr t, match gout with Some p => <[p := 0]> mem | None => mem end).

#[export] Instance table_class : MgxsClass dataset table := {|
  Mgxs_from_hdf5 n g temperature := Table n g.2 g.1 temperature [];
  Mgxs_macro n temperature micros densities :=
    Table n 0%float (existsb table_fissionable micros) temperature
      (table_name <$> micros);
  Mgxs_blank := Table "" 0%float false [] [];
  name := table_name;
  awr := table_awr;
  fissionable := table_fissionable;
  get_xs := table_get_xs
|}.

(** Version 1.0 is supported; no cell has a temperature of its own. *)
#[export] Instance collaborators : Collaborators := {|
  VERSION_MGXS_LIBRARY := (1, 0);
  get_temperatures nuc_temps := nuc_temps
|}.

Definition U235 : dataset := (true, 233%float).
Definition H1 : dataset := (false, 1%float).

Definition library : hdf5_file dataset :=
  Hdf5File "mgxs" (1, 0) (Some 2) (Some [2e7; 0.625; 0]%float)
    [("U235"%string, U235); ("H1"%string, H1)].

(** The same library without the dataset of H1. *)
Definition library_no_H1 : hdf5_file dataset :=
  Hdf5File "mgxs" (1, 0) (Some 2) (Some [2e7; 0.625; 0]%float)
    [("U235"%string, U235)].

(** The same library in a later format version. *)
Definition library_v2 : hdf5_file dataset :=
  Hdf5File "mgxs" (2, 0) (Some 2) (Some [2e7; 0.625; 0]%float)
    [("U235"%string, U235); ("H1"%string, H1)].

Definition files : gmap string (hdf5_file dataset) :=
  {[ "mgxs.h5"%string := library ]}.
Definition files_no_H1 : gmap string (hdf5_file dataset) :=
  {[ "mgxs.h5"%string := library_no_H1 ]}.
Definition files_v2 : gmap string (hdf5_file dataset) :=
  {[ "mgxs.h5"%string := library_v2 ]}.

Definition fuel : Material := Mk_Material [0; 1] false.
Definition water : Material := Mk_Material [1] false.

(** The data before any loading: fuel and water over U235 and H1. *)
Definition start : globals table :=
  Globals "mgxs.h5" {[ "U235"%string := 0; "H1"%string := 1 ]}
    [fuel; water] [] [] 0 [] [] [] [].

Definition U235_table : table := Table "U235" 233%float true [] [].
Definition H1_table : table := Table "H1" 1%float false [] [].

(** The data after read_mgxs. *)
Definition loaded : globals table :=
  Globals "mgxs.h5" {[ "U235"%string := 0; "H1"%string := 1 ]}
    [Mk_Material [0; 1] true; water] [U235_table; H1_table] [] 0 [] [] [] [].

(** The data after the header of the library has been read. *)
Definition with_grid : globals table :=
  Globals "mgxs.h5" {[ "U235"%string := 0; "H1"%string := 1 ]}
    [fuel; water] [] [] 2 [0; 0.625; 2e7]%float [0.3125; 10000000.3125]%float
    [2e7; 0.625; 0]%float
    [Mk_Library neutron ["U235"%string]; Mk_Library neutron ["H1"%string]].

(** The caller's memory: [*gout = 2] at address 5, [*dg = 1] at address 6. *)
Definition caller_mem : int_mem := {[ 5%positive := 2; 6%positive := 1 ]}.

(** The arguments for a material of both nuclides and for a void. *)
Definition fuel_args : macro_args :=
  Mk_macro_args "fuel" 2 [1; 2] 1 [294]%float [0.25; 0.5]%float
    0.125%float 0.
Definition void_args : macro_args :=
  Mk_macro_args "void" 0 [] 0 [] [] 0.125%float 0.

(** The data after the tables of the void and of the fuel were built. *)
Definition with_macros : globals table :=
  set_macro_xs
    [Mgxs_blank; Table "fuel" 0%float true [294]%float ["U235"; "H1"]%string]
    loaded.

(** A library with the grid attributes and no dataset. *)
Definition library_no_data : hdf5_file dataset :=
  Hdf5File "mgxs" (1, 0) (Some 2) (Some [2e7; 0.625; 0]%float) [].

(** A library without the attribute of the group structure. *)
Definition library_no_structure : hdf5_file dataset :=
  Hdf5File "mgxs" (1, 0) (Some 2) None
    [("U235"%string, U235); ("H1"%string, H1)].

(** The caller's array for a name: eight characters. *)
Definition name_array : list ascii := replicate 8 "x"%char.

(** A library whose group structure holds no boundary. *)
Definition library_empty_structure : hdf5_file dataset :=
  Hdf5File "mgxs" (1, 0) (Some 0) (Some [])
    [("U235"%string, U235); ("H1"%string, H1)].

(** The data before any loading, with the water declared first: the
    first nuclide that a material names has index 1. *)
Definition start_water_first : globals table :=
  Globals "mgxs.h5" {[ "U235"%string := 0; "H1"%string := 1 ]}
    [water; fuel] [] [] 0 [] [] [] [].

End SmallModel.

(** * The interface *)

Section Interface.
Context {G Mgxs : Type} `{!MgxsClass G Mgxs} `{!Collaborators}.

Local Abbreviation globals := (globals Mgxs).
Local Abbreviation set_materials := (@set_materials Mgxs).
Local Abbreviation set_nuclides_MG := (@set_nuclides_MG Mgxs).
Local Abbreviation set_macro_xs := (@set_macro_xs Mgxs).
Local Abbreviation set_num_energy_groups := (@set_num_energy_groups Mgxs).
Local Abbreviation set_energy_bins := (@set_energy_bins Mgxs).
Local Abbreviation set_energy_bin_avg := (@set_energy_bin_avg Mgxs).
Local Abbreviation set_rev_energy_bins := (@set_rev_energy_bins Mgxs).
Local Abbreviation set_libraries := (@set_libraries Mgxs).

(** ** Runs: a state monad with fatal errors and undefined behaviour *)

Inductive outcome (A : Type) :=
| Returns (a : A) (st : globals)
| FatalError (msg : string) (st : globals)
| Undefined.
Global Arguments Returns {A} a st.
Global Arguments FatalError {A} msg st.
Global Arguments Undefined {A}.

Definition prog (A : Type) : Type := globals → outcome A.

Global Instance prog_ret : MRet prog := λ A a st, Returns a st.
Global Instance prog_bind : MBind prog := λ A B f m st,
  match m st with
  | Returns a st' => f a st'
  | FatalError msg st' => FatalError msg st'
  | Undefined => Undefined
  end.

Definition fatal_error {A} (msg : string) : prog A := λ st, FatalError msg st.
Definition undefined {A} : prog A := λ _, Undefined.
Definition get_globals : prog globals := λ st, Returns st st.
Definition modify (f : globals → globals) : prog unit :=
  λ st, Returns tt (f st).

(** A value that has to be there: [v[i]] in range, [*p] valid. *)
Definition defined {A} (o : option A) : prog A :=
  match o with Some a => mret a | None => undefined end.

(** A range-based [for] over [l] that threads [acc] through the body. *)
Fixpoint for_each {A B} (l : list A) (body : A → B → prog B) (acc : B)
  : prog B :=
  match l with
  | [] => mret acc
  | x :: l' => acc' ← body x acc; for_each l' body acc'
  end.

Definition for_ {A} (l : list A) (body : A → prog unit) : prog unit :=
  for_each l (λ x _, body x) tt.

(** ** Helpers declared outside mgxs_interface.cpp *)

(** Modelled from the spec: [ensure_exists(obj, name, true)] is missing from
    src/; a missing group-count or group-structure attribute is a fatal
    error of the load. *)
Definition ensure_exists {A} (attribute : option A) (attr_name : string)
  : prog unit :=
  match attribute with
  | Some _ => mret tt
  | None => fatal_error ("Attribute " +:+ attr_name +:+ " does not exist")
  end.

(** Modelled from the spec: [read_attribute(obj, name, target)] stores the
    value of the attribute in [target]; reading an attribute that is not
    there is undefined. *)
Definition read_attribute {A} (attribute : option A) : prog A :=
  defined attribute.

(** ** Loading *)

(** add_mgxs_c, lines 100-117 *)
Definition add_mgxs_c (file_id : hdf5_file G) (name : string)
    (temperature : list double) : prog unit :=
  if object_exists file_id name then
    xs_grp ← defined (open_group file_id name);
    modify (λ st, set_nuclides_MG
      (nuclides_MG st ++ [Mgxs_from_hdf5 name xs_grp temperature]) st)
  else
    fatal_error ("Data for " +:+ name +:+
                 " does not exist in provided MGXS Library").

(** [nuclide_names[kv.second] = kv.first] over the nuclide map, lines
    76-79; a write outside the vector is undefined. *)
Definition build_nuclide_names (nuclide_map : gmap string Z)
  : option (list string) :=
  foldl (λ acc kv,
           nuclide_names ← acc;
           _ ← vec_at nuclide_names kv.2;
           Some (<[Z.to_nat kv.2 := kv.1]> nuclide_names))
        (Some (replicate (size nuclide_map) ""%string))
        (map_to_list nuclide_map).

Definition set_fissionable_ (b : bool) (mat : Material) : Material :=
  Mk_Material (nuclide_ mat) b.

(** The body of the loop over [mat->nuclide_], lines 84-93, for the
    material at position [k] of [model::materials]. *)
Definition read_mgxs_nuclide (file_id : hdf5_file G)
    (nuclide_names : list string) (nuc_temps : list (list double))
    (k : nat) (i_nuc : Z) (already_read : gset string)
  : prog (gset string) :=
  name ← defined (vec_at nuclide_names i_nuc);
  already_read ←
    (if decide (name ∈ already_read) then mret already_read
     else
       temperature ← defined (vec_at nuc_temps i_nuc);
       add_mgxs_c file_id name temperature;;
       mret ({[name]} ∪ already_read));
  st ← get_globals;
  nuc ← defined (vec_at (nuclides_MG st) i_nuc);
  (if fissionable nuc
   then modify (set_materials (alter (set_fissionable_ true) k (materials st)))
   else mret tt);;
  mret already_read.

(** The body of the loop over [model::materials], lines 82-95. *)
Definition read_mgxs_material (file_id : hdf5_file G)
    (nuclide_names : list string) (nuc_temps : list (list double))
    (k : nat) (already_read : gset string) : prog (gset string) :=
  st ← get_globals;
  mat ← defined (materials st !! k);
  for_each (nuclide_ mat)
    (read_mgxs_nuclide file_id nuclide_names nuc_temps k) already_read.

(** read_mgxs, lines 35-98; [fs] holds the files that exist, by path. *)
Definition read_mgxs (fs : gmap string (hdf5_file G)) : prog unit :=
  st ← get_globals;
  match fs !! path_cross_sections st with
  | None =>
      fatal_error ("Cross sections HDF5 file '" +:+ path_cross_sections st
                   +:+ "' does not exist.")
  | Some file_id =>
      let nuc_temps :=
        get_temperatures (replicate (size (nuclide_map st)) []) in
      if decide (attr_filetype file_id ≠ "mgxs"%string) then
        fatal_error "Provided MGXS Library is not a MGXS Library file."
      else if decide (attr_version file_id ≠ VERSION_MGXS_LIBRARY) then
        fatal_error ("MGXS Library file version does not match current " +:+
                     "version supported by OpenMC.")
      else
        nuclide_names ← defined (build_nuclide_names (nuclide_map st));
        for_each (seq 0 (length (materials st)))
          (read_mgxs_material file_id nuclide_names nuc_temps) ∅;;
        mret tt
  end.

(** [std::vector<T>(p, p + n)]: the first [n] elements of the array. *)
Definition array_prefix {A} (p : list A) (n : Z) : option (list A) :=
  if decide (0 ≤ n ≤ Z.of_nat (length p)) then Some (take (Z.to_nat n) p)
  else None.

(** create_macro_xs_c, lines 133-158; a pointer [&data::nuclides_MG[j]]
    is the table it points to. *)
Definition create_macro_xs_c (mat_name : string) (n_nuclides : Z)
    (i_nuclides : list Z) (n_temps : Z) (temps atom_densities : list double)
    (tolerance : double) (method : Z) : prog unit :=
  if decide (n_temps > 0) then
    temperature ← defined (array_prefix temps n_temps);
    atom_densities_vec ← defined (array_prefix atom_densities n_nuclides);
    mgxs_ptr ← for_each (seqZ 0 n_nuclides)
      (λ n mgxs_ptr,
         st ← get_globals;
         i ← defined (vec_at i_nuclides n);
         j ← defined (int_pred i);
         nuc ← defined (vec_at (nuclides_MG st) j);
         mret (mgxs_ptr ++ [nuc]))
      [];
    modify (λ st, set_macro_xs
      (macro_xs st ++
         [Mgxs_macro mat_name temperature mgxs_ptr atom_densities_vec]) st)
  else
    modify (λ st, set_macro_xs (macro_xs st ++ [Mgxs_blank]) st).

(** ** The energy-group grid *)

(** One turn of the loop of lines 175-177, [++i] included. *)
Definition energy_bin_avg_step (i : Z) : prog unit :=
  st ← get_globals;
  lo ← defined (vec_at (energy_bins st) i);
  hi ← defined (vec_at (energy_bins st) (i + 1));
  modify (set_energy_bin_avg
            (energy_bin_avg st ++ [(0.5 * (lo + hi))%float]));;
  if decide (i < INT_MAX) then mret tt else undefined.

(** read_mg_cross_sections_header_c, lines 162-192 *)
Definition read_mg_cross_sections_header_c (file_id : hdf5_file G)
  : prog unit :=
  ensure_exists (attr_energy_groups file_id) "energy_groups";;
  n ← read_attribute (attr_energy_groups file_id);
  modify (set_num_energy_groups n);;
  ensure_exists (attr_group_structure file_id) "group structure";;
  bins ← read_attribute (attr_group_structure file_id);
  modify (set_rev_energy_bins bins);;
  modify (λ st, set_energy_bins
            (energy_bins st ++ reverse (rev_energy_bins st)) st);;
  st ← get_globals;
  for_ (seqZ 0 (size_t_sub (Z.of_nat (length (energy_bins st))) 1))
    energy_bin_avg_step;;
  let names := group_names file_id in
  (if decide (names = []) then
     fatal_error ("At least one MGXS data set must be present in mgxs " +:+
                  "library file!")
   else mret tt);;
  for_ names (λ name,
    modify (λ st, set_libraries
              (libraries st ++ [Mk_Library neutron [name]]) st)).

(** ** Lookups *)

(** The body shared, line for line, by get_nuclide_xs_c (208-228) and
    get_macro_xs_c (232-252) is written out in each.  [mem] holds the
    caller's [int] objects; the automatic objects [gout_c] and [dg_c] get
    addresses that no object of the caller has, hold a value once assigned
    and are gone when the function returns.  [None] is undefined
    behaviour. *)
Definition get_nuclide_xs_c (st : globals) (index xstype gin : Z)
    (gout : option addr) (mu : option double) (dg : option addr)
    (mem : int_mem) : option (double * int_mem) :=
  let gout_c := fresh (dom mem) in
  let dg_c := fresh ({[gout_c]} ∪ dom mem) in
  '(gout_c_p, mem) ←
    match gout with
    | Some p => v ← mem !! p; c ← int_pred v;
                Some (Some gout_c, <[gout_c := c]> mem)
    | None => Some (gout, mem)
    end;
  '(dg_c_p, mem) ←
    match dg with
    | Some p => v ← mem !! p; c ← int_pred v;
                Some (Some dg_c, <[dg_c := c]> mem)
    | None => Some (dg, mem)
    end;
  i ← int_pred index;
  nuc ← vec_at (nuclides_MG st) i;
  g ← int_pred gin;
  let '(xs, mem) := get_xs nuc xstype g gout_c_p mu dg_c_p mem in
  Some (xs, delete dg_c (delete gout_c mem)).

Definition get_macro_xs_c (st : globals) (index xstype gin : Z)
    (gout : option addr) (mu : option double) (dg : option addr)
    (mem : int_mem) : option (double * int_mem) :=
  let gout_c := fresh (dom mem) in
  let dg_c := fresh ({[gout_c]} ∪ dom mem) in
  '(gout_c_p, mem) ←
    match gout with
    | Some p => v ← mem !! p; c ← int_pred v;
                Some (Some gout_c, <[gout_c := c]> mem)
    | None => Some (gout, mem)
    end;
  '(dg_c_p, mem) ←
    match dg with
    | Some p => v ← mem !! p; c ← int_pred v;
                Some (Some dg_c, <[dg_c := c]> mem)
    | None => Some (dg, mem)
    end;
  i ← int_pred index;
  mat ← vec_at (macro_xs st) i;
  g ← int_pred gin;
  let '(xs, mem) := get_xs mat xstype g gout_c_p mu dg_c_p mem in
  Some (xs, delete dg_c (delete gout_c mem)).

(** ** The rest of the interface *)

Context `{!MgxsSelection Mgxs}.

(** query_fissionable_c, lines 121-129 *)
Definition query_fissionable_c (n_nuclides : Z) (i_nuclides : list Z)
  : prog bool :=
  for_each (seqZ 0 n_nuclides)
    (λ n result,
       st ← get_globals;
       i ← defined (vec_at i_nuclides n);
       j ← defined (int_pred i);
       nuc ← defined (vec_at (nuclides_MG st) j);
       mret (if fissionable nuc then true else result))
    false.

(** calculate_xs_c, lines 198-204; the three references come back as the
    values written to them. *)
Definition calculate_xs_c (i_mat gin : Z) (sqrtkT : double)
    (uvw : list double) : prog (double * double * double) :=
  st ← get_globals;
  j ← defined (int_pred i_mat);
  mat ← defined (vec_at (macro_xs st) j);
  g ← defined (int_pred gin);
  let '(mat', xs) := calculate_xs mat g sqrtkT uvw in
  modify (set_macro_xs (<[Z.to_nat j := mat']> (macro_xs st)));;
  mret xs.

(** set_nuclide_angle_index_c, lines 256-261 *)
Definition set_nuclide_angle_index_c (index : Z) (uvw : list double)
  : prog unit :=
  st ← get_globals;
  j ← defined (int_pred index);
  nuc ← defined (vec_at (nuclides_MG st) j);
  modify (set_nuclides_MG
            (<[Z.to_nat j := set_angle_index nuc uvw]> (nuclides_MG st))).

(** set_macro_angle_index_c, lines 265-270 *)
Definition set_macro_angle_index_c (index : Z) (uvw : list double)
  : prog unit :=
  st ← get_globals;
  j ← defined (int_pred index);
  mat ← defined (vec_at (macro_xs st) j);
  modify (set_macro_xs
            (<[Z.to_nat j := set_angle_index mat uvw]> (macro_xs st))).

(** set_nuclide_temperature_index_c, lines 274-279 *)
Definition set_nuclide_temperature_index_c (index : Z) (sqrtkT : double)
  : prog unit :=
  st ← get_globals;
  j ← defined (int_pred index);
  nuc ← defined (vec_at (nuclides_MG st) j);
  modify (set_nuclides_MG
            (<[Z.to_nat j := set_temperature_index nuc sqrtkT]>
               (nuclides_MG st))).

(** get_name_c, lines 285-298; [name_buf] is the array that the parameter
    [name] points to, and the result is that array after the call.  A
    negative count makes [std::string(count, ' ')] throw. *)
Definition get_name_c (st : globals) (index name_len : Z)
    (name_buf : list ascii) : call_result (list ascii) :=
  match int_pred name_len with
  | None => UB
  | Some count =>
      if decide (count < 0) then Throws "std::length_error"
      else
        match
          (let str := string_fill (Z.to_nat count) " " in
           name_buf ← strcpy name_buf (c_str str);
           j ← int_pred index;
           nuc ← vec_at (nuclides_MG st) j;
           let str := name nuc in
           name_buf ← strcpy name_buf (c_str str);
           k ← strlen name_buf;
           Some (<[k := " "%char]> name_buf))
        with
        | Some name_buf => Done name_buf
        | None => UB
        end
  end.

(** get_awr_c, lines 302-306 *)
Definition get_awr_c (st : globals) (index : Z) : option double :=
  j ← int_pred index; nuc ← vec_at (nuclides_MG st) j; Some (awr nuc).

(** ** Specification vocabulary *)

(** Neighbouring entries of [l] are related by [R], left to right. *)
Fixpoint adjacent {A} (R : A → A → bool) (l : list A) : bool :=
  match l with
  | a :: l' =>
      match l' with
      | b :: _ => R a b && adjacent R l'
      | [] => true
      end
  | [] => true
  end.

Definition strictly_increasing (l : list double) : bool :=
  adjacent PrimFloat.ltb l.
Definition strictly_descending (l : list double) : bool :=
  adjacent (λ a b, PrimFloat.ltb b a) l.

(** [0.5 * (bins[g] + bins[g+1])], when both boundaries are there. *)
Definition bin_midpoint (bins : list double) (g : Z) : option double :=
  lo ← vec_at bins g; hi ← vec_at bins (g + 1);
  Some (0.5 * (lo + hi))%float.

Definition missing_data_msg (n : string) : string :=
  "Data for " +:+ n +:+ " does not exist in provided MGXS Library".

(** [added] are tables built from datasets of the file named [ns]. *)
Definition loaded_from (file : hdf5_file G) (ns : list string)
    (added : list Mgxs) : Prop :=
  Forall2 (λ n nuc, ∃ g t,
             open_group file n = Some g ∧ nuc = Mgxs_from_hdf5 n g t)
          ns added.

(** Since [st0], tables were appended for the names of [already_read], one
    for each, and only material flags changed besides. *)
Definition load_inv (file : hdf5_file G) (st0 : globals)
    (already_read : gset string) (st : globals) : Prop :=
  macro_xs st = macro_xs st0 ∧
  nuclide_ <$> materials st = nuclide_ <$> materials st0 ∧
  ∃ ns added,
    nuclides_MG st = nuclides_MG st0 ++ added ∧
    loaded_from file ns added ∧ NoDup ns ∧
    ∀ n, n ∈ already_read ↔ n ∈ ns.

(** The fatal error of the loops: a name that a material refers to has no
    dataset in the file. *)
Definition load_fatal (file : hdf5_file G) (names : list string)
    (st0 : globals) (msg : string) (st : globals) : Prop :=
  ∃ n seen k mat i,
    msg = missing_data_msg n ∧ object_exists file n = false ∧
    materials st0 !! k = Some mat ∧ i ∈ nuclide_ mat ∧
    vec_at names i = Some n ∧ load_inv file st0 seen st.

(** The per-nuclide temperature lists that read_mgxs works with. *)
Definition nuc_temps_of (st : globals) : list (list double) :=
  get_temperatures (replicate (size (nuclide_map st)) []).

(** The table that the load instantiates for the nuclide of index [i]. *)
Definition nuclide_table (file : hdf5_file G) (names : list string)
    (temps : list (list double)) (i : Z) : option Mgxs :=
  n ← vec_at names i; g ← open_group file n; t ← vec_at temps i;
  Some (Mgxs_from_hdf5 n g t).

Definition nuclide_fissionable (file : hdf5_file G) (names : list string)
    (temps : list (list double)) (i : Z) : bool :=
  match nuclide_table file names temps i with
  | Some nuc => fissionable nuc
  | None => false
  end.

Definition flag_if (b : bool) (mat : Material) : Material :=
  if b then set_fissionable_ true mat else mat.

(** The store holds, at each position, the table of the nuclide with that
    index, and the names of the nuclides it holds have been seen. *)
Definition table_inv (file : hdf5_file G) (names : list string)
    (temps : list (list double)) (already_read : gset string)
    (st : globals) : Prop :=
  ∀ j nuc, nuclides_MG st !! j = Some nuc →
    nuclide_table file names temps (Z.of_nat j) = Some nuc ∧
    ∃ n, names !! j = Some n ∧ n ∈ already_read.

Definition call_create_macro_xs_c (m : macro_args) : prog unit :=
  create_macro_xs_c (arg_mat_name m) (arg_n_nuclides m) (arg_i_nuclides m)
    (arg_n_temps m) (arg_temps m) (arg_atom_densities m) (arg_tolerance m)
    (arg_method m).

(** Modelled from the spec: the caller of create_macro_xs_c is not under
    src/; it builds the tables of all materials in declaration order, one
    call of create_macro_xs_c for each material. *)
Definition create_all_macro_xs (mats : list macro_args) : prog unit :=
  for_ mats call_create_macro_xs_c.

(** The entry that a call appends, as a function of the nuclide store. *)
Definition macro_entry (store : list Mgxs) (m : macro_args) : option Mgxs :=
  if decide (arg_n_temps m > 0) then
    temperature ← array_prefix (arg_temps m) (arg_n_temps m);
    atom_densities_vec ←
      array_prefix (arg_atom_densities m) (arg_n_nuclides m);
    mgxs_ptr ← mapM (λ n, i ← vec_at (arg_i_nuclides m) n;
                          j ← int_pred i; vec_at store j)
                    (seqZ 0 (arg_n_nuclides m));
    Some (Mgxs_macro (arg_mat_name m) temperature mgxs_ptr atom_densities_vec)
  else Some Mgxs_blank.

(** The pointer [p] is null or the address of an [int] of [mem] from which
    one can be subtracted. *)
Definition arg_ok (mem : int_mem) (p : option addr) : bool :=
  match p with
  | None => true
  | Some a => match mem !! a with
              | Some v => bool_decide (INT_MIN < v)
              | None => false
              end
  end.

(** What the internal lookup gets for the caller's [p]: null for null, and
    otherwise the address of an object of the callee that holds [*p - 1]. *)
Definition passes_0based (mem : int_mem) (p : option addr)
    (mem_c : int_mem) (p_c : option addr) : Prop :=
  match p with
  | None => p_c = None
  | Some a => ∃ v l, mem !! a = Some v ∧ mem !! l = None ∧
                     p_c = Some l ∧ mem_c !! l = Some (v - 1)
  end.

(** The locals of a lookup and the memory it hands to [get_xs]. *)
Definition lookup_frame (gout dg : option addr) (mem : int_mem)
  : option (option addr * option addr * int_mem) :=
  let gout_c := fresh (dom mem) in
  let dg_c := fresh ({[gout_c]} ∪ dom mem) in
  '(gout_c_p, mem) ←
    match gout with
    | Some p => v ← mem !! p; c ← int_pred v;
                Some (Some gout_c, <[gout_c := c]> mem)
    | None => Some (gout, mem)
    end;
  '(dg_c_p, mem) ←
    match dg with
    | Some p => v ← mem !! p; c ← int_pred v;
                Some (Some dg_c, <[dg_c := c]> mem)
    | None => Some (dg, mem)
    end;
  Some (gout_c_p, dg_c_p, mem).

(** The nuclide indices [l], read in order with [c] nuclides known so
    far, name known nuclides or the next new one; the count at the end. *)
Fixpoint first_use_end (c : nat) (l : list Z) : option nat :=
  match l with
  | [] => Some c
  | i :: l' =>
      if decide (0 ≤ i < Z.of_nat c) then first_use_end c l'
      else if decide (i = Z.of_nat c) then first_use_end (S c) l'
      else None
  end.

(** The store holds [c] tables, for the first [c] names, all seen. *)
Definition store_inv (names : list string) (c : nat)
    (already_read : gset string) (st : globals) : Prop :=
  length (nuclides_MG st) = c ∧ (c ≤ length names)%nat ∧
  ∀ n, n ∈ already_read ↔ ∃ j, (j < c)%nat ∧ names !! j = Some n.

(** The flags of [mats'] are those of [mats], some raised from false to
    true; the nuclide lists are the same. *)
Definition flags_only_raised (mats mats' : list Material) : Prop :=
  Forall2 (λ mat mat', nuclide_ mat' = nuclide_ mat ∧
                       (fissionable_ mat = true → fissionable_ mat' = true))
          mats mats'.

(** What a run of read_mgxs from [st] can have changed at [st']: tables
    appended to the nuclide store and material flags raised. *)
Definition load_frame (st st' : globals) : Prop :=
  path_cross_sections st' = path_cross_sections st ∧
  nuclide_map st' = nuclide_map st ∧
  macro_xs st' = macro_xs st ∧
  num_energy_groups st' = num_energy_groups st ∧
  energy_bins st' = energy_bins st ∧
  energy_bin_avg st' = energy_bin_avg st ∧
  rev_energy_bins st' = rev_energy_bins st ∧
  libraries st' = libraries st ∧
  (∃ added, nuclides_MG st' = nuclides_MG st ++ added) ∧
  flags_only_raised (materials st) (materials st').

(** [nuc] is the table of a nuclide that a material of [st] lists, built
    from the dataset of its name and its temperatures. *)
Definition referenced_table (file : hdf5_file G) (names : list string)
    (temps : list (list double)) (st : globals) (nuc : Mgxs) : Prop :=
  ∃ k mat i, materials st !! k = Some mat ∧ i ∈ nuclide_ mat ∧
             nuclide_table file names temps i = Some nuc.

(** The tables that the first [n_nuclides] handles of [i_nuclides] name;
    a handle is the position in the nuclide store plus one. *)
Definition handle_tables (store : list Mgxs) (i_nuclides : list Z)
    (n_nuclides : Z) : option (list Mgxs) :=
  mapM (λ n, i ← vec_at i_nuclides n; j ← int_pred i; vec_at store j)
       (seqZ 0 n_nuclides).

(** The handles of the nuclides with the indices [l]. *)
Definition handles_of (l : list Z) : list Z := (λ i, i + 1) <$> l.

(** Besides position [j], the tables of [store'] are those of [store]. *)
Definition only_table_changed (store store' : list Mgxs) (j : nat) : Prop :=
  length store' = length store ∧
  ∀ j', j' ≠ j → store' !! j' = store !! j'.

(** Partial correctness of a run from [st]: [Φ] holds of a normal return,
    [Ψ] of a fatal error; undefined behaviour promises nothing. *)
Definition wp {A} (m : prog A) (st : globals)
    (Φ : A → globals → Prop) (Ψ : string → globals → Prop) : Prop :=
  match m st with
  | Returns a st' => Φ a st'
  | FatalError msg st' => Ψ msg st'
  | Undefined => True
  end.

(** ** Vector reads *)

Lemma vec_at_Some {A} (v : list A) i x :
  vec_at v i = Some x ↔ 0 ≤ i ∧ v !! Z.to_nat i = Some x.
Proof.
  unfold vec_at. case_decide; split; try done.
  - by intros [_ ?].
  - by intros [? _].
Qed.

Lemma vec_at_lt {A} (v : list A) i x :
  vec_at v i = Some x → 0 ≤ i < Z.of_nat (length v).
Proof.
  intros [Hi Hl%lookup_lt_Some]%vec_at_Some. lia.
Qed.

Lemma vec_at_of_nat {A} (v : list A) (n : nat) :
  vec_at v (Z.of_nat n) = v !! n.
Proof.
  unfold vec_at. rewrite decide_True by lia. by rewrite Nat2Z.id.
Qed.

Lemma vec_at_app_l {A} (v w : list A) i x :
  vec_at v i = Some x → vec_at (v ++ w) i = Some x.
Proof.
  rewrite !vec_at_Some. intros [? ?]. split; [done|].
  by apply lookup_app_l_Some.
Qed.

(** ** Rules for runs *)

Lemma wp_ret {A} (a : A) st Φ Ψ : Φ a st → wp (mret a) st Φ Ψ.
Proof. done. Qed.

Lemma wp_bind {A B} (m : prog A) (f : A → prog B) st Φ Ψ :
  wp m st (λ a st', wp (f a) st' Φ Ψ) Ψ → wp (m ≫= f) st Φ Ψ.
Proof.
  unfold wp, mbind, prog_bind. by destruct (m st).
Qed.

Lemma wp_mono {A} (m : prog A) st (Φ Φ' : A → globals → Prop)
    (Ψ Ψ' : string → globals → Prop) :
  wp m st Φ Ψ →
  (∀ a st', Φ a st' → Φ' a st') → (∀ msg st', Ψ msg st' → Ψ' msg st') →
  wp m st Φ' Ψ'.
Proof.
  unfold wp. destruct (m st); auto.
Qed.

Lemma wp_get st Φ Ψ : Φ st st → wp get_globals st Φ Ψ.
Proof. done. Qed.

Lemma wp_modify f st Φ Ψ : Φ tt (f st) → wp (modify f) st Φ Ψ.
Proof. done. Qed.

Lemma wp_fatal {A} msg st (Φ : A → globals → Prop) Ψ :
  Ψ msg st → wp (fatal_error msg) st Φ Ψ.
Proof. done. Qed.

Lemma wp_defined {A} (o : option A) st Φ Ψ :
  (∀ a, o = Some a → Φ a st) → wp (defined o) st Φ Ψ.
Proof. destruct o; [|done]. intros HΦ. by apply HΦ. Qed.

Lemma wp_returns {A} (m : prog A) st Φ Ψ a st' :
  wp m st Φ Ψ → m st = Returns a st' → Φ a st'.
Proof. unfold wp. intros Hwp Hrun. by rewrite Hrun in Hwp. Qed.

(** The loop rule: [Inv done acc st] holds when the elements [done] have
    been through the body. *)
Lemma wp_for_each {A B} (Inv : list A → B → globals → Prop)
    (l : list A) (body : A → B → prog B) acc st Ψ :
  Inv [] acc st →
  (∀ done x rest acc st, l = done ++ x :: rest → Inv done acc st →
     wp (body x acc) st (Inv (done ++ [x])) Ψ) →
  wp (for_each l body acc) st (Inv l) Ψ.
Proof.
  intros Hinit Hstep.
  enough (∀ rest done acc st, l = done ++ rest → Inv done acc st →
            wp (for_each rest body acc) st (Inv l) Ψ) as Hgen
    by (by apply (Hgen l [])).
  clear acc st Hinit.
  induction rest as [|x rest IH]; intros done acc st Hl Hinv; simpl.
  - apply wp_ret. rewrite app_nil_r in Hl. by subst.
  - apply wp_bind. eapply wp_mono; [by eapply Hstep| |done].
    intros acc' st' Hinv'. simpl in Hinv'.
    apply (IH (done ++ [x])); [|done].
    by rewrite <- app_assoc.
Qed.

Lemma bind_returns {A B} (m : prog A) (f : A → prog B) st a st' :
  m st = Returns a st' → (m ≫= f) st = f a st'.
Proof. unfold mbind, prog_bind. by intros ->. Qed.

(** ** The energy-group grid *)

Lemma adjacent_snoc {A} (R : A → A → bool) l x :
  adjacent R (l ++ [x]) =
  adjacent R l && match last l with Some y => R y x | None => true end.
Proof.
  induction l as [|a l IH]; [done|].
  destruct l as [|b l]; simpl in *.
  - by rewrite andb_true_r.
  - rewrite IH. by rewrite andb_assoc.
Qed.

Lemma adjacent_reverse {A} (R : A → A → bool) l :
  adjacent R (reverse l) = adjacent (λ a b, R b a) l.
Proof.
  induction l as [|a l IH]; [done|].
  rewrite reverse_cons, adjacent_snoc, IH, last_reverse.
  destruct l as [|b l]; simpl; [done|]. apply andb_comm.
Qed.

Local Ltac int_lia := unfold INT_MAX, INT_MIN in *; lia.

Lemma set_energy_bin_avg_id st : set_energy_bin_avg (energy_bin_avg st) st = st.
Proof. by destruct st. Qed.

Lemma for_energy_bin_avg_steps l : ∀ st avgs,
  mapM (bin_midpoint (energy_bins st)) l = Some avgs →
  Forall (λ i, i < INT_MAX) l →
  for_ l energy_bin_avg_step st =
  Returns tt (set_energy_bin_avg (energy_bin_avg st ++ avgs) st).
Proof.
  unfold for_.
  induction l as [|i l IH]; intros st avgs Hmap Hi; simpl in *.
  - injection Hmap as <-. by rewrite app_nil_r, set_energy_bin_avg_id.
  - apply Forall_cons in Hi as [Hi Hl].
    destruct (bin_midpoint (energy_bins st) i) as [y|] eqn:Hy; [|done].
    simpl in Hmap.
    destruct (mapM (bin_midpoint (energy_bins st)) l) as [k|] eqn:Hk; [|done].
    injection Hmap as <-.
    unfold bin_midpoint in Hy.
    destruct (vec_at (energy_bins st) i) as [lo|] eqn:Hlo; [|done].
    destruct (vec_at (energy_bins st) (i + 1)) as [hi|] eqn:Hhi; [|done].
    injection Hy as <-.
    erewrite bind_returns; cycle 1.
    { unfold energy_bin_avg_step, mbind, prog_bind, get_globals.
      rewrite Hlo, Hhi. simpl. by rewrite decide_True. }
    rewrite (IH _ k); [|done|done].
    f_equal. destruct st; simpl. unfold set_energy_bin_avg; simpl.
    by rewrite <- app_assoc.
Qed.

Lemma grid_midpoints_defined (bins : list double) :
  is_Some (mapM (bin_midpoint bins) (seqZ 0 (Z.of_nat (length bins) - 1))).
Proof.
  apply mapM_is_Some_2, Forall_seqZ. intros i Hi. unfold bin_midpoint, compose.
  destruct (lookup_lt_is_Some_2 bins (Z.to_nat i)) as [lo Hlo]; [lia|].
  destruct (lookup_lt_is_Some_2 bins (Z.to_nat (i + 1))) as [hi Hhi]; [lia|].
  unfold vec_at. rewrite !decide_True by lia. by rewrite Hlo, Hhi.
Qed.

Lemma set_libraries_id st : set_libraries (libraries st) st = st.
Proof. by destruct st. Qed.

Lemma for_push_libraries names : ∀ st,
  for_ names (λ name, modify (λ st, set_libraries
                (libraries st ++ [Mk_Library neutron [name]]) st)) st =
  Returns tt (set_libraries
    (libraries st ++ ((λ name, Mk_Library neutron [name]) <$> names)) st).
Proof.
  unfold for_.
  induction names as [|name names IH]; intros st; simpl.
  - by rewrite app_nil_r, set_libraries_id.
  - erewrite bind_returns; [|done]. rewrite IH. f_equal.
    destruct st; unfold set_libraries; simpl. by rewrite <- app_assoc.
Qed.

(** What a run of the header reader leaves behind, for a file that has
    both attributes, at least one boundary and one dataset. *)
Lemma read_header_returns file st n bins :
  attr_energy_groups file = Some n →
  attr_group_structure file = Some bins →
  let grid := energy_bins st ++ reverse bins in
  1 ≤ Z.of_nat (length grid) ≤ INT_MAX + 1 →
  group_names file ≠ [] →
  ∃ avgs,
    mapM (bin_midpoint grid) (seqZ 0 (Z.of_nat (length grid) - 1)) = Some avgs ∧
    read_mg_cross_sections_header_c file st =
    Returns tt
      (Globals (path_cross_sections st) (nuclide_map st) (materials st)
         (nuclides_MG st) (macro_xs st) n grid (energy_bin_avg st ++ avgs)
         bins
         (libraries st ++
            ((λ name, Mk_Library neutron [name]) <$> group_names file))).
Proof.
  intros Hn Hbins grid Hlen Hnames.
  destruct (grid_midpoints_defined grid) as [avgs Havgs].
  exists avgs. split; [done|].
  unfold read_mg_cross_sections_header_c. rewrite Hn, Hbins.
  unfold mbind, prog_bind at 1 2 3 4 5 6 7 8; simpl.
  fold grid.
  assert (size_t_sub (Z.of_nat (length grid)) 1 = Z.of_nat (length grid) - 1)
    as ->.
  { unfold size_t_sub. apply Z.mod_small. unfold INT_MAX in Hlen. lia. }
  erewrite bind_returns; cycle 1.
  { apply for_energy_bin_avg_steps; [done|].
    apply Forall_seqZ. intros i Hi. lia. }
  rewrite decide_False by done.
  erewrite bind_returns; [|done].
  by rewrite for_push_libraries.
Qed.

(** Without a boundary the bound [size() - 1] of the averaging loop wraps
    around to [2 ^ 64 - 1] and its first turn reads past the end: the group
    count of a valid library is not negative. *)
Lemma read_header_empty_structure file st n :
  attr_energy_groups file = Some n →
  attr_group_structure file = Some [] →
  energy_bins st = [] →
  read_mg_cross_sections_header_c file st = Undefined.
Proof.
  intros Hn Hbins Hempty.
  unfold read_mg_cross_sections_header_c. rewrite Hn, Hbins.
  unfold mbind, prog_bind at 1 2 3 4 5 6 7 8; simpl.
  rewrite Hempty. simpl.
  replace (size_t_sub 0 1) with (2 ^ 64 - 1) by done.
  rewrite seqZ_cons by done.
  by unfold for_.
Qed.

(** C5. After the header of a valid library has been read into an empty
    grid, the loaded group count is that of the file, the ascending
    boundary array is the file's list reversed, it has one entry more
    than the loaded group count and its entries are strictly
    increasing. *)
Theorem header_grid_size_and_order file st n bins :
  attr_energy_groups file = Some n →
  attr_group_structure file = Some bins →
  Z.of_nat (length bins) = n + 1 →
  0 ≤ n ≤ INT_MAX →
  strictly_descending bins = true →
  group_names file ≠ [] →
  energy_bins st = [] →
  ∃ st',
    read_mg_cross_sections_header_c file st = Returns tt st' ∧
    num_energy_groups st' = n ∧
    energy_bins st' = reverse bins ∧
    Z.of_nat (length (energy_bins st')) = num_energy_groups st' + 1 ∧
    strictly_increasing (energy_bins st') = true.
Proof.
  intros Hn Hbins Hlen Hmax Hdesc Hnames Hempty.
  destruct (read_header_returns file st n bins Hn Hbins) as (avgs & _ & Hrun);
    [rewrite Hempty; simpl; rewrite length_reverse; int_lia|done|].
  eexists. split; [exact Hrun|]. simpl. rewrite Hempty. simpl.
  split_and!; [done|done|by rewrite length_reverse|].
  unfold strictly_increasing. by rewrite adjacent_reverse.
Qed.

(** C6. After the header of a valid library has been read into an empty
    grid, the loaded group count is that of the file, the file's
    descending list is kept as read, the grid has one boundary more than
    there are groups, and the ascending boundary at index [i] is the
    file's descending boundary at index [groupCount - i], for every [i]
    in [0, groupCount]. *)
Theorem header_grid_reverses_file file st n bins :
  attr_energy_groups file = Some n →
  attr_group_structure file = Some bins →
  Z.of_nat (length bins) = n + 1 →
  0 ≤ n ≤ INT_MAX →
  group_names file ≠ [] →
  energy_bins st = [] →
  ∃ st',
    read_mg_cross_sections_header_c file st = Returns tt st' ∧
    num_energy_groups st' = n ∧
    rev_energy_bins st' = bins ∧
    Z.of_nat (length (energy_bins st')) = n + 1 ∧
    ∀ i, 0 ≤ i ≤ n →
      ∃ e, vec_at (energy_bins st') i = Some e ∧
           vec_at (rev_energy_bins st') (num_energy_groups st' - i) = Some e.
Proof.
  intros Hn Hbins Hlen Hmax Hnames Hempty.
  destruct (read_header_returns file st n bins Hn Hbins) as (avgs & _ & Hrun);
    [rewrite Hempty; simpl; rewrite length_reverse; int_lia|done|].
  eexists. split; [exact Hrun|]. simpl. rewrite Hempty. simpl.
  split_and!; [done|done|by rewrite length_reverse|].
  intros i Hi.
  destruct (lookup_lt_is_Some_2 bins (Z.to_nat (n - i))) as [e He]; [lia|].
  exists e. unfold vec_at. rewrite !decide_True by lia. split; [|done].
  rewrite reverse_lookup by lia. rewrite <- He. f_equal. lia.
Qed.

(** C7. After the header of a valid library has been read into an empty
    grid, the loaded group count is that of the file, the ascending grid
    is the file's list reversed, there is one stored average for each
    group, and the stored average of every group [g] in [0, groupCount)
    is [0.5 * (boundary[g] + boundary[g+1])] on the ascending grid. *)
Theorem header_group_average_is_midpoint file st n bins :
  attr_energy_groups file = Some n →
  attr_group_structure file = Some bins →
  Z.of_nat (length bins) = n + 1 →
  0 ≤ n ≤ INT_MAX →
  group_names file ≠ [] →
  energy_bins st = [] →
  energy_bin_avg st = [] →
  ∃ st',
    read_mg_cross_sections_header_c file st = Returns tt st' ∧
    num_energy_groups st' = n ∧
    energy_bins st' = reverse bins ∧
    Z.of_nat (length (energy_bin_avg st')) = n ∧
    ∀ g, 0 ≤ g < n →
      ∃ lo hi,
        vec_at (energy_bins st') g = Some lo ∧
        vec_at (energy_bins st') (g + 1) = Some hi ∧
        vec_at (energy_bin_avg st') g = Some (0.5 * (lo + hi))%float.
Proof.
  intros Hn Hbins Hlen Hmax Hnames Hempty Havg.
  destruct (read_header_returns file st n bins Hn Hbins)
    as (avgs & Hmid & Hrun);
    [rewrite Hempty; simpl; rewrite length_reverse; int_lia|done|].
  eexists. split; [exact Hrun|]. simpl. rewrite Hempty, Havg in *.
  simpl in *. apply mapM_Some_1 in Hmid.
  split_and!; [done|done| |].
  { apply Forall2_length in Hmid.
    rewrite length_seqZ, length_reverse in Hmid. lia. }
  intros g Hg.
  destruct (Forall2_lookup_l _ _ _ (Z.to_nat g) g Hmid) as (avg & Hg_avg & Hdef).
  { apply lookup_seqZ. rewrite length_reverse. lia. }
  unfold bin_midpoint in Hdef.
  destruct (vec_at (reverse bins) g) as [lo|]; [|done].
  destruct (vec_at (reverse bins) (g + 1)) as [hi|]; [|done].
  simpl in Hdef. injection Hdef as <-.
  exists lo, hi. split_and!; [done..|].
  unfold vec_at. by rewrite decide_True by lia.
Qed.

(** ** Loading the nuclide tables *)

Lemma open_group_exists (file : hdf5_file G) n g :
  open_group file n = Some g → object_exists file n = true.
Proof.
  unfold open_group, object_exists, group_names. intros Hg.
  apply fmap_Some in Hg as ([j [n' g']] & Hfind & ->).
  apply list_find_Some in Hfind as (Hj & Hn & _). simpl in *. subst n'.
  apply bool_decide_eq_true. apply list_elem_of_fmap.
  exists (n, g'). split; [done|]. by eapply list_elem_of_lookup_2.
Qed.

Lemma object_exists_open_group (file : hdf5_file G) n :
  object_exists file n = true → is_Some (open_group file n).
Proof.
  unfold open_group, object_exists, group_names. intros Hn.
  apply bool_decide_eq_true, list_elem_of_fmap in Hn as ([n' g] & -> & Hin).
  destruct (list_find_elem_of (λ g0 : string * G, g0.1 = (n', g).1)
              (file_groups file) (n', g) Hin eq_refl) as [r Hr].
  rewrite Hr. by eexists.
Qed.

(** add_mgxs_c appends the table of an existing dataset and nothing else;
    for a missing dataset it is fatal with the data untouched. *)
Lemma add_mgxs_c_spec (file : hdf5_file G) n temperature st :
  match open_group file n with
  | Some g =>
      add_mgxs_c file n temperature st =
      Returns tt (set_nuclides_MG
        (nuclides_MG st ++ [Mgxs_from_hdf5 n g temperature]) st)
  | None =>
      object_exists file n = false ∧
      add_mgxs_c file n temperature st = FatalError (missing_data_msg n) st
  end.
Proof.
  unfold add_mgxs_c.
  destruct (open_group file n) as [g|] eqn:Hg.
  - by rewrite (open_group_exists _ _ _ Hg).
  - destruct (object_exists file n) eqn:Hex; [|done].
    apply object_exists_open_group in Hex as [g' Hg']. congruence.
Qed.

(** One turn of the loop over a material's nuclides. *)
Lemma read_mgxs_nuclide_spec (file : hdf5_file G) names temps k i seen st :
  wp (read_mgxs_nuclide file names temps k i seen) st
    (λ seen' st', ∃ n nuc,
       vec_at names i = Some n ∧
       ((n ∈ seen ∧ seen' = seen ∧ nuclides_MG st' = nuclides_MG st) ∨
        ((n ∉ seen) ∧ seen' = {[n]} ∪ seen ∧
         ∃ g t, open_group file n = Some g ∧ vec_at temps i = Some t ∧
                nuclides_MG st' =
                nuclides_MG st ++ [Mgxs_from_hdf5 n g t])) ∧
       vec_at (nuclides_MG st') i = Some nuc ∧
       st' = set_materials
               (if fissionable nuc
                then alter (set_fissionable_ true) k (materials st)
                else materials st)
               (set_nuclides_MG (nuclides_MG st') st))
    (λ msg st', ∃ n,
       vec_at names i = Some n ∧ (n ∉ seen) ∧
       object_exists file n = false ∧ msg = missing_data_msg n ∧ st' = st).
Proof.
  unfold wp, read_mgxs_nuclide, mbind, prog_bind.
  destruct (vec_at names i) as [n|] eqn:Hn; simpl; [|done].
  destruct (decide (n ∈ seen)) as [Hseen|Hseen]; simpl.
  - destruct (vec_at (nuclides_MG st) i) as [nuc|] eqn:Hnuc; simpl; [|done].
    destruct (fissionable nuc) eqn:Hf; simpl;
      (exists n, nuc; rewrite Hf; split_and!; [done|by left|done|by destruct st]).
  - destruct (vec_at temps i) as [t|] eqn:Ht; simpl; [|done].
    pose proof (add_mgxs_c_spec file n t st) as Hadd.
    destruct (open_group file n) as [g|] eqn:Hg.
    + rewrite Hadd. simpl.
      destruct (vec_at (nuclides_MG st ++ [Mgxs_from_hdf5 n g t]) i)
        as [nuc|] eqn:Hnuc; simpl; [|done].
      destruct (fissionable nuc) eqn:Hf; simpl;
        (exists n, nuc; rewrite Hf; split_and!;
         [done|right; split_and!; [done..|by exists g, t]|done|done]).
    + destruct Hadd as [Hex ->]. by exists n.
Qed.
(** *** What the loops keep true *)

Lemma nuclide_alter_flag b k (mats : list Material) :
  nuclide_ <$> alter (set_fissionable_ b) k mats = nuclide_ <$> mats.
Proof.
  rewrite (list_fmap_alter nuclide_ (set_fissionable_ b) id).
  - by apply list_alter_id.
  - by apply Forall_forall.
Qed.

Lemma load_inv_step (file : hdf5_file G) names temps st0 k i seen st :
  load_inv file st0 seen st →
  wp (read_mgxs_nuclide file names temps k i seen) st
    (λ seen' st', load_inv file st0 seen' st' ∧ seen ⊆ seen' ∧
                  ∃ n, vec_at names i = Some n ∧ n ∈ seen')
    (λ msg st', ∃ n seen',
       msg = missing_data_msg n ∧ object_exists file n = false ∧
       vec_at names i = Some n ∧ load_inv file st0 seen' st').
Proof.
  intros (Hmacro & Hmats & ns & added & Hstore & Hfrom & Hnd & Hseen).
  eapply wp_mono; [apply read_mgxs_nuclide_spec| |].
  - intros seen' st' (n & nuc & Hn & Hcase & Hnuc & ->).
    assert (nuclide_ <$> (if fissionable nuc
              then alter (set_fissionable_ true) k (materials st)
              else materials st) = nuclide_ <$> materials st0) as Hmats'.
    { destruct (fissionable nuc); [|done]. by rewrite nuclide_alter_flag. }
    destruct Hcase as [(Hin & -> & Heq)|(Hnin & -> & g & t & Hg & Ht & Heq)].
    + split_and!; [|done|by exists n].
      split_and!; [done|done|]. exists ns, added. simpl. by rewrite Heq.
    + split_and!;
        [|apply union_subseteq_r
         |exists n; split; [done|by apply elem_of_union_l, elem_of_singleton]].
      split_and!; [done|done|].
      exists (ns ++ [n]), (added ++ [Mgxs_from_hdf5 n g t]). simpl.
      split_and!.
      * by rewrite Heq, Hstore, <- app_assoc.
      * apply Forall2_app; [done|]. repeat constructor. by exists g, t.
      * apply NoDup_app. split_and!; [done| |apply NoDup_singleton].
        intros m Hm ->%list_elem_of_singleton. apply Hnin. by apply Hseen.
      * intros m. rewrite elem_of_union, elem_of_singleton, elem_of_app,
          list_elem_of_singleton, Hseen. tauto.
  - intros msg st' (n & Hn & Hnin & Hex & -> & ->).
    exists n, seen. split_and!; [done..|].
    split_and!; [done|done|]. by exists ns, added.
Qed.

Lemma load_inv_material (file : hdf5_file G) names temps st0 k seen st :
  load_inv file st0 seen st →
  wp (read_mgxs_material file names temps k seen) st
    (λ seen' st', load_inv file st0 seen' st' ∧ seen ⊆ seen' ∧
       ∀ mat, materials st !! k = Some mat →
         ∀ i, i ∈ nuclide_ mat → ∃ n, vec_at names i = Some n ∧ n ∈ seen')
    (λ msg st', ∃ n seen' mat i,
       msg = missing_data_msg n ∧ object_exists file n = false ∧
       materials st !! k = Some mat ∧ i ∈ nuclide_ mat ∧
       vec_at names i = Some n ∧ load_inv file st0 seen' st').
Proof.
  intros Hinv. unfold read_mgxs_material.
  apply wp_bind, wp_get, wp_bind, wp_defined. intros mat Hmat.
  eapply wp_mono;
    [apply (wp_for_each (λ done seen' st',
       load_inv file st0 seen' st' ∧ seen ⊆ seen' ∧
       ∀ i, i ∈ done → ∃ n, vec_at names i = Some n ∧ n ∈ seen'))
    | |intros msg st' Hfatal; exact Hfatal].
  - split_and!; [done|done|]. by intros i ?%elem_of_nil.
  - intros done i rest seen1 st1 Hl (Hinv1 & Hsub1 & Hdone1).
    eapply wp_mono; [by apply load_inv_step| |].
    + intros seen2 st2 (Hinv2 & Hsub2 & n & Hn & Hin). simpl.
      split_and!; [done|by etrans|].
      intros j [Hj| ->%list_elem_of_singleton]%elem_of_app; [|by exists n].
      destruct (Hdone1 j Hj) as (m & Hm & Hmin).
      exists m. split; [done|by apply Hsub2].
    + intros msg st2 (n & seen2 & -> & Hex & Hn & Hinv2).
      exists n, seen2, mat, i. split_and!; [done..| |done|done].
      rewrite Hl. apply elem_of_app. right. left.
  - intros seen' st' (Hinv' & Hsub' & Hdone'). simpl.
    split_and!; [done..|]. intros mat' Hmat'. by simplify_eq.
Qed.

Lemma load_inv_materials (file : hdf5_file G) names temps st0 ks seen st :
  load_inv file st0 seen st →
  wp (for_each ks (read_mgxs_material file names temps) seen) st
    (λ seen' st', load_inv file st0 seen' st' ∧
       ∀ k mat, k ∈ ks → materials st0 !! k = Some mat →
         ∀ i, i ∈ nuclide_ mat → ∃ n, vec_at names i = Some n ∧ n ∈ seen')
    (load_fatal file names st0).
Proof.
  intros Hinv.
  eapply wp_mono;
    [apply (wp_for_each (λ done seen' st',
       load_inv file st0 seen' st' ∧
       ∀ k mat, k ∈ done → materials st0 !! k = Some mat →
         ∀ i, i ∈ nuclide_ mat →
           ∃ n, vec_at names i = Some n ∧ n ∈ seen'))| |done].
  - split; [done|]. by intros k mat ?%elem_of_nil.
  - intros done k rest seen1 st1 _ (Hinv1 & Hdone1).
    pose proof Hinv1 as (_ & Hmats1 & _).
    eapply wp_mono; [by apply load_inv_material| |].
    + intros seen2 st2 (Hinv2 & Hsub2 & Hk). simpl. split; [done|].
      intros k' mat [Hk'| ->%list_elem_of_singleton]%elem_of_app Hmat i Hi.
      * destruct (Hdone1 k' mat Hk' Hmat i Hi) as (m & Hm & Hmin).
        exists m. split; [done|by apply Hsub2].
      * assert (nuclide_ <$> materials st1 !! k = Some (nuclide_ mat)) as Hlk.
        { by rewrite <- list_lookup_fmap, Hmats1, list_lookup_fmap, Hmat. }
        apply fmap_Some in Hlk as (mat1 & Hmat1 & Heq).
        apply (Hk mat1 Hmat1). by rewrite <- Heq.
    + intros msg st2 (n & seen2 & mat1 & i & -> & Hex & Hmat1 & Hi & Hn & Hinv2).
      assert (nuclide_ <$> materials st0 !! k = Some (nuclide_ mat1)) as Hlk.
      { by rewrite <- list_lookup_fmap, <- Hmats1, list_lookup_fmap, Hmat1. }
      apply fmap_Some in Hlk as (mat0 & Hmat0 & Heq).
      exists n, seen2, k, mat0, i. split_and!; [done..| |done|done].
      by rewrite <- Heq.
  - done.
Qed.

(** The four ways read_mgxs can go before its loops start. *)
Lemma read_mgxs_cases (fs : gmap string (hdf5_file G)) st :
  match fs !! path_cross_sections st with
  | None => ∃ msg, read_mgxs fs st = FatalError msg st
  | Some file =>
      if decide (attr_filetype file = "mgxs"%string ∧
                 attr_version file = VERSION_MGXS_LIBRARY)
      then match build_nuclide_names (nuclide_map st) with
           | Some names =>
               read_mgxs fs st =
               (for_each (seq 0 (length (materials st)))
                  (read_mgxs_material file names (nuc_temps_of st)) ∅ ≫=
                λ _, mret tt) st
           | None => read_mgxs fs st = Undefined
           end
      else ∃ msg, read_mgxs fs st = FatalError msg st
  end.
Proof.
  unfold read_mgxs, nuc_temps_of.
  cbv beta iota delta [mbind prog_bind get_globals fatal_error].
  destruct (fs !! path_cross_sections st) as [file|]; [|by eexists].
  destruct (decide (attr_filetype file = "mgxs"%string)) as [Hty|Hty].
  - rewrite (decide_False (P := attr_filetype file ≠ _)) by auto.
    destruct (decide (attr_version file = VERSION_MGXS_LIBRARY)) as [Hver|Hver].
    + rewrite (decide_False (P := attr_version file ≠ _)) by auto.
      rewrite decide_True by done.
      by destruct (build_nuclide_names (nuclide_map st)).
    + rewrite (decide_True (P := attr_version file ≠ _)) by done.
      rewrite decide_False by tauto. by eexists.
  - rewrite (decide_True (P := attr_filetype file ≠ _)) by done.
    rewrite decide_False by tauto. by eexists.
Qed.

(** C3. When the version attribute of the library file differs from the
    supported pair, read_mgxs ends in a fatal error, and the data at that
    point are the data it started from: no table was added to the nuclide
    store and the grid was not touched. *)
Theorem read_mgxs_version_mismatch (fs : gmap string (hdf5_file G)) st file :
  fs !! path_cross_sections st = Some file →
  attr_version file ≠ VERSION_MGXS_LIBRARY →
  ∃ msg st',
    read_mgxs fs st = FatalError msg st' ∧
    nuclides_MG st' = nuclides_MG st ∧
    macro_xs st' = macro_xs st ∧
    energy_bins st' = energy_bins st ∧
    energy_bin_avg st' = energy_bin_avg st ∧
    rev_energy_bins st' = rev_energy_bins st ∧
    st' = st.
Proof.
  intros Hfile Hver. pose proof (read_mgxs_cases fs st) as Hrun.
  rewrite Hfile, decide_False in Hrun by tauto.
  destruct Hrun as [msg Hrun]. by exists msg, st.
Qed.

Lemma load_inv_init (file : hdf5_file G) st : load_inv file st ∅ st.
Proof.
  split_and!; [done..|]. exists [], []. split_and!.
  - by rewrite app_nil_r.
  - constructor.
  - constructor.
  - intros n. by rewrite elem_of_empty, elem_of_nil.
Qed.

(** What holds of a run of read_mgxs that got past the checks. *)
Lemma read_mgxs_load_spec (fs : gmap string (hdf5_file G)) st file names :
  fs !! path_cross_sections st = Some file →
  build_nuclide_names (nuclide_map st) = Some names →
  wp (read_mgxs fs) st
    (λ _ st', ∃ seen, load_inv file st seen st' ∧
       ∀ k mat i, materials st !! k = Some mat → i ∈ nuclide_ mat →
         ∃ n, vec_at names i = Some n ∧ n ∈ seen)
    (λ msg st', st' = st ∨ load_fatal file names st msg st').
Proof.
  intros Hfile Hnames. pose proof (read_mgxs_cases fs st) as Hrun.
  rewrite Hfile, Hnames in Hrun.
  case_decide; [|destruct Hrun as [msg Hrun]; unfold wp; rewrite Hrun; by left].
  unfold wp at 1. rewrite Hrun. apply wp_bind.
  eapply wp_mono; [by apply load_inv_materials, load_inv_init| |by right].
  intros seen st' [Hinv Hall]. apply wp_ret. exists seen. split; [done|].
  intros k mat i Hmat Hi. apply (Hall k mat); [|done..].
  apply elem_of_seq. apply lookup_lt_Some in Hmat. lia.
Qed.

Lemma loaded_from_names (file : hdf5_file G) ns added :
  (∀ n g t, name (Mgxs_from_hdf5 n g t) = n) →
  loaded_from file ns added → name <$> added = ns.
Proof.
  intros Hname. induction 1 as [|n nuc ns added (g & t & _ & ->) _ IH]; [done|].
  by rewrite fmap_cons, Hname, IH.
Qed.

Lemma length_filter_name (added : list Mgxs) n :
  length (filter (λ nuc, name nuc = n) added) =
  length (filter (λ m, m = n) (name <$> added)).
Proof.
  induction added as [|nuc added IH]; [done|].
  rewrite fmap_cons, !filter_cons.
  destruct (decide (name nuc = n)); simpl; by rewrite IH.
Qed.

Lemma length_filter_NoDup (ns : list string) n :
  NoDup ns → n ∈ ns → length (filter (λ m, m = n) ns) = 1%nat.
Proof.
  induction 1 as [|m ns Hm Hnd IH]; [by intros ?%elem_of_nil|].
  rewrite filter_cons. intros [Heq|Hin]%elem_of_cons.
  - subst m. rewrite decide_True by done. simpl. f_equal.
    destruct (filter (λ m, m = n) ns) as [|m l] eqn:Hf; [done|].
    assert (m ∈ filter (λ m, m = n) ns) as [-> ?]%list_elem_of_filter
      by (rewrite Hf; left).
    done.
  - rewrite decide_False by (by intros ->). by apply IH.
Qed.

(** C2. Every nuclide name that some material refers to gets its table
    instantiated exactly once by read_mgxs: among the entries that the load
    appended to the nuclide store, exactly one carries that name. *)
Theorem read_mgxs_instantiates_once (fs : gmap string (hdf5_file G))
    st st' file names :
  (∀ n g t, name (Mgxs_from_hdf5 n g t) = n) →
  fs !! path_cross_sections st = Some file →
  build_nuclide_names (nuclide_map st) = Some names →
  read_mgxs fs st = Returns tt st' →
  ∃ added,
    nuclides_MG st' = nuclides_MG st ++ added ∧
    ∀ k mat i_nuc n,
      materials st !! k = Some mat → i_nuc ∈ nuclide_ mat →
      vec_at names i_nuc = Some n →
      length (filter (λ nuc, name nuc = n) added) = 1%nat.
Proof.
  intros Hname Hfile Hnames Hrun.
  destruct (wp_returns _ _ _ _ _ _ (read_mgxs_load_spec fs st file names
              Hfile Hnames) Hrun)
    as (seen & (_ & _ & ns & added & Hstore & Hfrom & Hnd & Hseen) & Hall).
  exists added. split; [done|].
  intros k mat i n Hmat Hi Hn.
  destruct (Hall k mat i Hmat Hi) as (n' & Hn' & Hin). simplify_eq.
  rewrite length_filter_name, (loaded_from_names file ns) by done.
  apply length_filter_NoDup; [done|]. by apply Hseen.
Qed.

Lemma loaded_from_exists (file : hdf5_file G) ns added n :
  loaded_from file ns added → n ∈ ns → object_exists file n = true.
Proof.
  induction 1 as [|m nuc ns added (g & t & Hg & _) _ IH];
    [by intros ?%elem_of_nil|].
  intros [->|Hin]%elem_of_cons; [by eapply open_group_exists|by apply IH].
Qed.

(** C4. When a material refers to a nuclide name that has no dataset group
    in the library file, a run of read_mgxs with defined behaviour ends in
    the fatal error that add_mgxs_c raises for a missing dataset, on a name
    that a material refers to; at that point the macroscopic store is as it
    was before the load, and the nuclide store has grown by tables of
    existing datasets only. *)
Theorem read_mgxs_missing_dataset_is_fatal (fs : gmap string (hdf5_file G))
    st file names k mat i_nuc n :
  fs !! path_cross_sections st = Some file →
  attr_filetype file = "mgxs"%string →
  attr_version file = VERSION_MGXS_LIBRARY →
  build_nuclide_names (nuclide_map st) = Some names →
  materials st !! k = Some mat → i_nuc ∈ nuclide_ mat →
  vec_at names i_nuc = Some n →
  object_exists file n = false →
  read_mgxs fs st ≠ Undefined →
  ∃ n' st',
    read_mgxs fs st = FatalError (missing_data_msg n') st' ∧
    object_exists file n' = false ∧
    (∃ k' mat' i', materials st !! k' = Some mat' ∧ i' ∈ nuclide_ mat' ∧
                   vec_at names i' = Some n') ∧
    (∀ temperature,
       add_mgxs_c file n' temperature st' =
       FatalError (missing_data_msg n') st') ∧
    macro_xs st' = macro_xs st ∧
    ∃ ns added,
      nuclides_MG st' = nuclides_MG st ++ added ∧
      loaded_from file ns added.
Proof.
  intros Hfile Hty Hver Hnames Hmat Hi Hn Hmissing Hdef.
  pose proof (read_mgxs_load_spec fs st file names Hfile Hnames) as Hwp.
  destruct (read_mgxs fs st) as [[] st'|msg st'|] eqn:Hrun; [| |done].
  - apply (wp_returns _ _ _ _ _ _ Hwp) in Hrun
      as (seen & (_ & _ & ns & added & _ & Hfrom & _ & Hseen) & Hall).
    destruct (Hall k mat i_nuc Hmat Hi) as (n' & Hn' & Hin).
    rewrite Hn in Hn'. injection Hn' as <-. apply Hseen in Hin.
    by rewrite (loaded_from_exists file ns added n) in Hmissing.
  - pose proof (read_mgxs_cases fs st) as Hcases.
    rewrite Hfile, Hnames, decide_True in Hcases by done.
    assert (load_fatal file names st msg st') as
      (n' & seen & k' & mat' & i' & -> & Hex & Hmat' & Hi' & Hn' &
       Hmacro & _ & ns & added & Hstore & Hfrom & _).
    { pose proof (load_inv_materials file names (nuc_temps_of st) st
        (seq 0 (length (materials st))) ∅ st (load_inv_init file st)) as Hloop.
      rewrite Hrun in Hcases. symmetry in Hcases.
      unfold mbind, prog_bind in Hcases. unfold wp in Hloop.
      destruct (for_each _ _ _ st) as [seen st1|msg1 st1|]; [done| |done].
      by simplify_eq. }
    exists n', st'.
    split_and!; [done|done|by exists k', mat', i'| |done|by exists ns, added].
    intros temperature. pose proof (add_mgxs_c_spec file n' temperature st') as Hadd.
    destruct (open_group file n') as [g|] eqn:Hg; [|by destruct Hadd].
    apply open_group_exists in Hg. congruence.
Qed.

(** *** The fissionable flag of a material *)

Lemma table_inv_mono (file : hdf5_file G) names temps seen seen' st :
  table_inv file names temps seen st → seen ⊆ seen' →
  table_inv file names temps seen' st.
Proof.
  intros Hinv Hsub j nuc Hj. destruct (Hinv j nuc Hj) as (Ht & n & Hn & Hin).
  split; [done|]. exists n. split; [done|]. by apply Hsub.
Qed.

Lemma alter_flag_if b1 b2 k (mats : list Material) :
  alter (flag_if b2) k (alter (flag_if b1) k mats) =
  alter (flag_if (b1 || b2)) k mats.
Proof.
  apply list_eq. intros j. destruct (decide (k = j)) as [->|Hne].
  - rewrite !list_lookup_alter_eq. destruct (mats !! j) as [[]|]; [|done].
    by destruct b1, b2.
  - by rewrite !list_lookup_alter_ne.
Qed.

Lemma table_inv_step (file : hdf5_file G) names temps k i seen st :
  table_inv file names temps seen st →
  wp (read_mgxs_nuclide file names temps k i seen) st
    (λ seen' st',
       table_inv file names temps seen' st' ∧ seen ⊆ seen' ∧
       (∃ more, nuclides_MG st' = nuclides_MG st ++ more) ∧
       (∃ nuc, nuclide_table file names temps i = Some nuc ∧
               vec_at (nuclides_MG st') i = Some nuc) ∧
       materials st' =
       alter (flag_if (nuclide_fissionable file names temps i)) k
         (materials st))
    (λ _ _, True).
Proof.
  intros Hinv.
  eapply wp_mono; [apply read_mgxs_nuclide_spec| |done].
  intros seen' st' (n & nuc & Hn & Hcase & Hnuc & ->). simpl.
  assert (nuclide_table file names temps i = Some nuc →
          (if fissionable nuc
           then alter (set_fissionable_ true) k (materials st)
           else materials st) =
          alter (flag_if (nuclide_fissionable file names temps i)) k
            (materials st)) as Hflag.
  { intros Ht. unfold nuclide_fissionable. rewrite Ht.
    destruct (fissionable nuc); [done|]. by rewrite list_alter_id. }
  apply vec_at_Some in Hnuc as Hnuc'. destruct Hnuc' as [Hi Hj].
  apply vec_at_Some in Hn as Hn'. destruct Hn' as [_ Hnj].
  destruct Hcase as [(Hin & -> & Heq)|(Hnin & -> & g & t & Hg & Ht & Heq)].
  - rewrite Heq in *.
    destruct (Hinv _ _ Hj) as [Htab _]. rewrite Z2Nat.id in Htab by done.
    split_and!; [done|done|by exists []; rewrite app_nil_r|by exists nuc|auto].
  - rewrite Heq in *.
    assert (Z.to_nat i = length (nuclides_MG st) ∧
            nuc = Mgxs_from_hdf5 n g t) as [Hlen ->].
    { apply lookup_app_Some in Hj as [Hj|[Hlen Hj]].
      - destruct (Hinv _ _ Hj) as (_ & n' & Hn' & Hin'). congruence.
      - apply list_lookup_singleton_Some in Hj as [Hj ->]. split; [lia|done]. }
    assert (nuclide_table file names temps i =
            Some (Mgxs_from_hdf5 n g t)) as Htab.
    { unfold nuclide_table. rewrite Hn. simpl. rewrite Hg. simpl.
      by rewrite Ht. }
    split_and!; [|apply union_subseteq_r|by eexists|by eexists|auto].
    intros j' nuc' [Hj'|[Hlen' Hj']]%lookup_app_Some.
    + eapply table_inv_mono; [done|apply union_subseteq_r|done].
    + apply list_lookup_singleton_Some in Hj' as [Hj' <-].
      replace (Z.of_nat j') with i by lia. split; [done|].
      exists n. replace j' with (Z.to_nat i) by lia. split; [done|].
      by apply elem_of_union_l, elem_of_singleton.
Qed.

Lemma table_inv_material (file : hdf5_file G) names temps k seen st :
  table_inv file names temps seen st →
  wp (read_mgxs_material file names temps k seen) st
    (λ seen' st',
       table_inv file names temps seen' st' ∧
       (∃ more, nuclides_MG st' = nuclides_MG st ++ more) ∧
       ∃ mat, materials st !! k = Some mat ∧
         (∀ i, i ∈ nuclide_ mat →
            ∃ nuc, nuclide_table file names temps i = Some nuc ∧
                   vec_at (nuclides_MG st') i = Some nuc) ∧
         materials st' =
         alter (flag_if (existsb (nuclide_fissionable file names temps)
                           (nuclide_ mat))) k (materials st))
    (λ _ _, True).
Proof.
  intros Hinv. unfold read_mgxs_material.
  apply wp_bind, wp_get, wp_bind, wp_defined. intros mat Hmat.
  eapply wp_mono;
    [apply (wp_for_each (λ done seen' st',
       table_inv file names temps seen' st' ∧
       (∃ more, nuclides_MG st' = nuclides_MG st ++ more) ∧
       (∀ i, i ∈ done →
          ∃ nuc, nuclide_table file names temps i = Some nuc ∧
                 vec_at (nuclides_MG st') i = Some nuc) ∧
       materials st' =
       alter (flag_if (existsb (nuclide_fissionable file names temps) done))
         k (materials st)))| |done].
  - split_and!; [done|by exists []; rewrite app_nil_r| |].
    + by intros i ?%elem_of_nil.
    + simpl. by rewrite list_alter_id.
  - intros done i rest seen1 st1 _ (Hinv1 & [more1 Hstore1] & Hdone1 & Hmats1).
    eapply wp_mono; [by apply table_inv_step| |done].
    intros seen2 st2 (Hinv2 & _ & [more2 Hstore2] & Hnuc & Hmats2). simpl.
    split_and!; [done| | |].
    + exists (more1 ++ more2). by rewrite Hstore2, Hstore1, <- app_assoc.
    + intros j [Hj| ->%list_elem_of_singleton]%elem_of_app; [|done].
      destruct (Hdone1 j Hj) as (nuc & Htab & Hat). exists nuc.
      split; [done|]. rewrite Hstore2. by apply vec_at_app_l.
    + rewrite Hmats2, Hmats1, alter_flag_if, existsb_app. simpl.
      by rewrite orb_false_r.
  - intros seen' st' (Hinv' & Hstore' & Hdone' & Hmats'). simpl.
    split_and!; [done..|]. by exists mat.
Qed.

Lemma table_inv_materials (file : hdf5_file G) names temps st0 ks :
  NoDup ks →
  table_inv file names temps ∅ st0 →
  wp (for_each ks (read_mgxs_material file names temps) ∅) st0
    (λ _ st',
       (∀ k mat, k ∈ ks → materials st0 !! k = Some mat →
          ∀ i, i ∈ nuclide_ mat →
            ∃ nuc, nuclide_table file names temps i = Some nuc ∧
                   vec_at (nuclides_MG st') i = Some nuc) ∧
       ∀ k mat, materials st0 !! k = Some mat →
         materials st' !! k =
         Some (flag_if (bool_decide (k ∈ ks) &&
                        existsb (nuclide_fissionable file names temps)
                          (nuclide_ mat)) mat))
    (λ _ _, True).
Proof.
  intros Hnd Hinv.
  eapply wp_mono;
    [apply (wp_for_each (λ done seen' st',
       table_inv file names temps seen' st' ∧
       (∀ k mat, k ∈ done → materials st0 !! k = Some mat →
          ∀ i, i ∈ nuclide_ mat →
            ∃ nuc, nuclide_table file names temps i = Some nuc ∧
                   vec_at (nuclides_MG st') i = Some nuc) ∧
       ∀ k mat, materials st0 !! k = Some mat →
         materials st' !! k =
         Some (flag_if (bool_decide (k ∈ done) &&
                        existsb (nuclide_fissionable file names temps)
                          (nuclide_ mat)) mat)))| |done].
  - split_and!; [done|by intros k mat ?%elem_of_nil|].
    intros k mat Hmat. by rewrite bool_decide_eq_false_2 by apply not_elem_of_nil.
  - intros done x rest seen1 st1 Hks (Hinv1 & Hdone1 & Hmats1).
    assert (x ∉ done) as Hx.
    { rewrite Hks in Hnd. apply NoDup_app in Hnd as (_ & Hnd & _).
      intros Hin. apply (Hnd x Hin). left. }
    eapply wp_mono; [by apply table_inv_material| |done].
    intros seen2 st2 (Hinv2 & [more Hstore2] & mat1 & Hmat1 & Hnucs & Hmats2).
    simpl. split_and!; [done| |].
    + intros k mat [Hk| ->%list_elem_of_singleton]%elem_of_app Hmat i Hi.
      * destruct (Hdone1 k mat Hk Hmat i Hi) as (nuc & Htab & Hat).
        exists nuc. split; [done|]. rewrite Hstore2. by apply vec_at_app_l.
      * apply Hnucs. rewrite (Hmats1 _ _ Hmat) in Hmat1.
        rewrite bool_decide_eq_false_2 in Hmat1 by done.
        simpl in Hmat1. by simplify_eq.
    + intros k mat Hmat. rewrite Hmats2.
      destruct (decide (x = k)) as [->|Hne].
      * rewrite list_lookup_alter_eq, Hmat1. simpl.
        rewrite (Hmats1 _ _ Hmat) in Hmat1.
        rewrite bool_decide_eq_false_2 in Hmat1 by done.
        simpl in Hmat1. simplify_eq.
        rewrite bool_decide_eq_true_2; [done|].
        apply elem_of_app. right. left.
      * rewrite list_lookup_alter_ne, (Hmats1 _ _ Hmat) by done.
        do 2 f_equal. f_equal. apply bool_decide_ext.
        rewrite elem_of_app, list_elem_of_singleton.
        split; [by left|intros [?|?]; [assumption|congruence]].
  - intros seen' st' (_ & Hdone & Hmats). by split.
Qed.

(** C1. After a load into an empty nuclide store, take any material and any
    nuclide index of its nuclide list: the store holds, at that index, the
    table instantiated for that nuclide, and if the table is fissionable the
    material is flagged fissionable; a material none of whose nuclides has a
    fissionable table keeps the flag it had, so it is not flagged. *)
Theorem read_mgxs_flags_fissionable_materials
    (fs : gmap string (hdf5_file G)) st st' file names k mat :
  fs !! path_cross_sections st = Some file →
  build_nuclide_names (nuclide_map st) = Some names →
  nuclides_MG st = [] →
  read_mgxs fs st = Returns tt st' →
  materials st !! k = Some mat →
  let table := nuclide_table file names (nuc_temps_of st) in
  ∃ mat',
    materials st' !! k = Some mat' ∧
    nuclide_ mat' = nuclide_ mat ∧
    (∀ i_nuc, i_nuc ∈ nuclide_ mat →
       ∃ nuc, table i_nuc = Some nuc ∧
              vec_at (nuclides_MG st') i_nuc = Some nuc ∧
              (fissionable nuc = true → fissionable_ mat' = true)) ∧
    ((∀ i_nuc nuc, i_nuc ∈ nuclide_ mat → table i_nuc = Some nuc →
        fissionable nuc = false) →
     fissionable_ mat' = fissionable_ mat).
Proof.
  intros Hfile Hnames Hempty Hrun Hmat table. subst table.
  pose proof (read_mgxs_cases fs st) as Hcases.
  rewrite Hfile, Hnames in Hcases.
  case_decide; [|destruct Hcases as [msg Hcases]; congruence].
  rewrite Hrun in Hcases. symmetry in Hcases.
  unfold mbind, prog_bind in Hcases.
  pose proof (table_inv_materials file names (nuc_temps_of st) st
    (seq 0 (length (materials st))) (NoDup_seq _ _)) as Hloop.
  unfold wp in Hloop.
  destruct (for_each _ _ _ st) as [seen st1|msg1 st1|]; [|done..].
  injection Hcases as <-.
  destruct Hloop as [Hnucs Hmats].
  { intros j nuc Hj. by rewrite Hempty in Hj. }
  assert (k ∈ seq 0 (length (materials st))) as Hk.
  { apply elem_of_seq. apply lookup_lt_Some in Hmat. lia. }
  eexists. split; [by apply Hmats|].
  rewrite bool_decide_eq_true_2 by done. simpl.
  split; [by destruct (existsb _ _)|]. split.
  - intros i Hi. destruct (Hnucs k mat Hk Hmat i Hi) as (nuc & Htab & Hat).
    exists nuc. split_and!; [done..|]. intros Hf.
    assert (existsb (nuclide_fissionable file names (nuc_temps_of st))
              (nuclide_ mat) = true) as ->; [|done].
    apply existsb_exists. exists i. split; [by apply list_elem_of_In|].
    unfold nuclide_fissionable. by rewrite Htab.
  - intros Hnone.
    assert (existsb (nuclide_fissionable file names (nuc_temps_of st))
              (nuclide_ mat) = false) as ->; [|done].
    apply not_true_iff_false. intros (i & Hi & Hf)%existsb_exists.
    apply list_elem_of_In in Hi. unfold nuclide_fissionable in Hf.
    destruct (nuclide_table file names (nuc_temps_of st) i) as [nuc|] eqn:Htab;
      [|done].
    by rewrite (Hnone i nuc Hi Htab) in Hf.
Qed.


(** *** Inputs on which the load has defined behaviour *)

Lemma first_use_end_le l : ∀ c c',
  first_use_end c l = Some c' → (c ≤ c')%nat.
Proof.
  induction l as [|i l IH]; intros c c' Hend; simpl in Hend.
  - injection Hend as <-. lia.
  - repeat case_decide; [by apply IH|apply IH in Hend; lia|done].
Qed.

Lemma read_mgxs_nuclide_undefined (file : hdf5_file G) names temps k i
    seen st :
  read_mgxs_nuclide file names temps k i seen st = Undefined →
  match vec_at names i with
  | None => True
  | Some n =>
      if decide (n ∈ seen) then vec_at (nuclides_MG st) i = None
      else match vec_at temps i with
           | None => True
           | Some t =>
               ∃ g, open_group file n = Some g ∧
                    vec_at (nuclides_MG st ++ [Mgxs_from_hdf5 n g t]) i = None
           end
  end.
Proof.
  unfold read_mgxs_nuclide, mbind, prog_bind.
  destruct (vec_at names i) as [n|] eqn:Hn; simpl; [|done].
  destruct (decide (n ∈ seen)) as [Hseen|Hseen]; simpl.
  - destruct (vec_at (nuclides_MG st) i) as [nuc|] eqn:Hnuc; simpl; [|done].
    by destruct (fissionable nuc).
  - destruct (vec_at temps i) as [t|] eqn:Ht; simpl; [|done].
    pose proof (add_mgxs_c_spec file n t st) as Hadd.
    destruct (open_group file n) as [g|] eqn:Hg.
    + rewrite Hadd. simpl.
      destruct (vec_at (nuclides_MG st ++ [Mgxs_from_hdf5 n g t]) i)
        as [nuc|] eqn:Hnuc; simpl; [|by exists g].
      by destruct (fissionable nuc).
    + destruct Hadd as [_ ->]. done.
Qed.

Lemma store_inv_step (file : hdf5_file G) names temps k i rest c c_end
    seen st :
  NoDup names → (length names ≤ length temps)%nat →
  store_inv names c seen st →
  first_use_end c (i :: rest) = Some c_end → (c_end ≤ length names)%nat →
  read_mgxs_nuclide file names temps k i seen st ≠ Undefined ∧
  ∀ seen' st',
    read_mgxs_nuclide file names temps k i seen st = Returns seen' st' →
    nuclide_ <$> materials st' = nuclide_ <$> materials st ∧
    ∃ c', store_inv names c' seen' st' ∧ first_use_end c' rest = Some c_end.
Proof.
  intros Hnd Htemps (Hlen & Hc & Hseen) Hend Hc_end. simpl in Hend.
  destruct (decide (0 ≤ i < Z.of_nat c)) as [Hi|Hi].
  - (* a nuclide that is in the store already *)
    destruct (lookup_lt_is_Some_2 names (Z.to_nat i)) as [n Hn]; [lia|].
    assert (vec_at names i = Some n) as Hn'
      by (by apply vec_at_Some; split; [lia|]).
    assert (n ∈ seen) as Hin by (apply Hseen; exists (Z.to_nat i); split; [lia|done]).
    split.
    + intros Hun%read_mgxs_nuclide_undefined.
      rewrite Hn', decide_True in Hun by done.
      destruct (lookup_lt_is_Some_2 (nuclides_MG st) (Z.to_nat i))
        as [nuc Hnuc]; [lia|].
      unfold vec_at in Hun. rewrite decide_True in Hun by lia. congruence.
    + intros seen' st' Hrun.
      pose proof (read_mgxs_nuclide_spec file names temps k i seen st) as Hwp.
      apply (wp_returns _ _ _ _ _ _ Hwp) in Hrun
        as (n0 & nuc & Hn0 & Hcase & Hnuc & ->).
      assert (n0 = n) as -> by congruence.
      destruct Hcase as [(_ & -> & Heq)|(Hnin & _)]; [|done].
      split; [by simpl; destruct (fissionable nuc); rewrite ?nuclide_alter_flag|].
      exists c. split; [|done]. split_and!; [by simpl; rewrite Heq|done..].
  - destruct (decide (i = Z.of_nat c)) as [->|Hne]; [|done].
    (* the next new nuclide *)
    apply first_use_end_le in Hend as Hle.
    destruct (lookup_lt_is_Some_2 names c) as [n Hn]; [lia|].
    destruct (lookup_lt_is_Some_2 temps c) as [t Ht]; [lia|].
    assert (n ∉ seen) as Hnin.
    { intros (j & Hj & Hnj)%Hseen.
      pose proof (NoDup_lookup _ _ _ _ Hnd Hnj Hn). lia. }
    split.
    + intros Hun%read_mgxs_nuclide_undefined.
      rewrite !vec_at_of_nat, Hn, decide_False, Ht in Hun by done.
      destruct Hun as (g & _ & Hun).
      rewrite vec_at_of_nat, <- Hlen, lookup_app_r, Nat.sub_diag in Hun by done.
      done.
    + intros seen' st' Hrun.
      pose proof (read_mgxs_nuclide_spec file names temps k (Z.of_nat c)
                    seen st) as Hwp.
      apply (wp_returns _ _ _ _ _ _ Hwp) in Hrun
        as (n0 & nuc & Hn0 & Hcase & Hnuc & ->).
      rewrite vec_at_of_nat in Hn0. assert (n0 = n) as -> by congruence.
      destruct Hcase as [(Hin & _)|(_ & -> & g & t' & _ & _ & Heq)]; [done|].
      split; [by simpl; destruct (fissionable nuc); rewrite ?nuclide_alter_flag|].
      exists (S c). split; [|done]. split_and!.
      * simpl. rewrite Heq, length_app. simpl. lia.
      * lia.
      * intros m. rewrite elem_of_union, elem_of_singleton, Hseen. split.
        -- intros [->|(j & Hj & Hm)]; [exists c; split; [lia|done]|].
           exists j. split; [lia|done].
        -- intros (j & Hj & Hm). destruct (decide (j = c)) as [->|Hjc].
           ++ left. congruence.
           ++ right. exists j. split; [lia|done].
Qed.

Lemma for_each_defined {A B} (Inv : list A → B → globals → Prop)
    (l : list A) (body : A → B → prog B) acc st :
  Inv [] acc st →
  (∀ done x rest acc st, l = done ++ x :: rest → Inv done acc st →
     body x acc st ≠ Undefined ∧
     ∀ acc' st', body x acc st = Returns acc' st' → Inv (done ++ [x]) acc' st') →
  for_each l body acc st ≠ Undefined ∧
  ∀ acc' st', for_each l body acc st = Returns acc' st' → Inv l acc' st'.
Proof.
  intros Hinit Hstep.
  enough (∀ rest done acc st, l = done ++ rest → Inv done acc st →
            for_each rest body acc st ≠ Undefined ∧
            ∀ acc' st', for_each rest body acc st = Returns acc' st' →
                        Inv l acc' st') as Hgen
    by (by apply (Hgen l [])).
  clear acc st Hinit.
  induction rest as [|x rest IH]; intros done acc st Hl Hinv; simpl.
  - split; [done|]. intros acc' st' [= <- <-]. rewrite app_nil_r in Hl.
    by subst.
  - destruct (Hstep done x rest acc st Hl Hinv) as [Hdef Hret].
    unfold mbind, prog_bind.
    destruct (body x acc st) as [acc1 st1|msg st1|]; [|done..].
    apply (IH (done ++ [x])); [by rewrite <- app_assoc|by apply Hret].
Qed.

Lemma read_mgxs_material_unfold (file : hdf5_file G) names temps k mat
    seen st :
  materials st !! k = Some mat →
  read_mgxs_material file names temps k seen st =
  for_each (nuclide_ mat) (read_mgxs_nuclide file names temps k) seen st.
Proof.
  intros Hmat. unfold read_mgxs_material.
  cbv beta iota delta [mbind prog_bind get_globals]. by rewrite Hmat.
Qed.

Lemma store_inv_material (file : hdf5_file G) names temps k mat tail c c_end
    seen st :
  NoDup names → (length names ≤ length temps)%nat →
  store_inv names c seen st →
  materials st !! k = Some mat →
  first_use_end c (nuclide_ mat ++ tail) = Some c_end →
  (c_end ≤ length names)%nat →
  read_mgxs_material file names temps k seen st ≠ Undefined ∧
  ∀ seen' st',
    read_mgxs_material file names temps k seen st = Returns seen' st' →
    nuclide_ <$> materials st' = nuclide_ <$> materials st ∧
    ∃ c', store_inv names c' seen' st' ∧ first_use_end c' tail = Some c_end.
Proof.
  intros Hnd Htemps Hinv Hmat Hend Hc_end.
  rewrite (read_mgxs_material_unfold file names temps k mat) by done.
  destruct (for_each_defined (λ done seen' st',
      nuclide_ <$> materials st' = nuclide_ <$> materials st ∧
      ∃ c', store_inv names c' seen' st' ∧
            first_use_end c' (drop (length done) (nuclide_ mat) ++ tail) =
            Some c_end)
    (nuclide_ mat) (read_mgxs_nuclide file names temps k) seen st)
    as [Hdef Hret].
  - split; [done|]. by exists c.
  - intros done i rest seen1 st1 Hl (Hmats1 & c1 & Hinv1 & Hend1).
    rewrite Hl, drop_app_length in Hend1. simpl in Hend1.
    destruct (store_inv_step file names temps k i (rest ++ tail) c1 c_end
                seen1 st1 Hnd Htemps Hinv1 Hend1 Hc_end) as [Hdef1 Hret1].
    split; [done|]. intros seen2 st2 Hrun.
    destruct (Hret1 _ _ Hrun) as (Hmats2 & c2 & Hinv2 & Hend2).
    split; [congruence|]. exists c2. split; [done|].
    replace (done ++ i :: rest) with ((done ++ [i]) ++ rest) in Hl
      by (by rewrite <- app_assoc).
    by rewrite Hl, drop_app_length.
  - split; [done|]. intros seen' st' Hrun.
    destruct (Hret _ _ Hrun) as (Hmats' & c' & Hinv' & Hend').
    split; [done|]. exists c'. split; [done|].
    by rewrite drop_all in Hend'.
Qed.

(** With an empty store, names without repetition, a temperature list for
    each name and nuclide indices that follow the order of first use,
    read_mgxs has no undefined behaviour. *)
(** On inputs that name nuclides in the order of their indices, the loops
    have defined behaviour and leave as many tables as the materials use
    nuclides. *)
Lemma read_mgxs_loops_count (file : hdf5_file G) st names c :
  nuclides_MG st = [] →
  NoDup names →
  (length names ≤ length (nuc_temps_of st))%nat →
  first_use_end 0 (concat (nuclide_ <$> materials st)) = Some c →
  (c ≤ length names)%nat →
  for_each (seq 0 (length (materials st)))
    (read_mgxs_material file names (nuc_temps_of st)) ∅ st ≠ Undefined ∧
  ∀ seen' st',
    for_each (seq 0 (length (materials st)))
      (read_mgxs_material file names (nuc_temps_of st)) ∅ st =
    Returns seen' st' →
    store_inv names c seen' st'.
Proof.
  intros Hempty Hnd Htemps Hend Hc.
  destruct (for_each_defined (λ done seen' st',
      nuclide_ <$> materials st' = nuclide_ <$> materials st ∧
      ∃ c', store_inv names c' seen' st' ∧
            first_use_end c'
              (concat (nuclide_ <$> drop (length done) (materials st))) =
            Some c)
    (seq 0 (length (materials st)))
    (read_mgxs_material file names (nuc_temps_of st)) ∅ st) as [Hdef Hret].
  - split; [done|]. exists 0%nat. split; [|done]. split_and!.
    + by rewrite Hempty.
    + lia.
    + intros n. rewrite elem_of_empty. split; [done|].
      intros (j & Hj & _). lia.
  - intros done x rest seen1 st1 Hl (Hmats1 & c1 & Hinv1 & Hend1).
    assert (x = length done ∧ (x < length (materials st))%nat) as [-> Hx].
    { assert (seq 0 (length (materials st)) !! length done = Some x) as Hx
        by (by rewrite Hl, list_lookup_middle).
      apply lookup_seq in Hx. lia. }
    destruct (lookup_lt_is_Some_2 (materials st) (length done) Hx)
      as [mat Hmat].
    assert (∃ mat1, materials st1 !! length done = Some mat1 ∧
                    nuclide_ mat1 = nuclide_ mat) as (mat1 & Hmat1 & Hnucs).
    { assert ((nuclide_ <$> materials st1) !! length done =
              Some (nuclide_ mat)) as Hlk
        by (by rewrite Hmats1, list_lookup_fmap, Hmat).
      rewrite list_lookup_fmap in Hlk.
      apply fmap_Some in Hlk as (mat1 & ? & ?). by exists mat1. }
    rewrite (drop_S _ mat) in Hend1 by done.
    rewrite fmap_cons, concat_cons, <- Hnucs in Hend1.
    destruct (store_inv_material file names (nuc_temps_of st) (length done)
                mat1 _ c1 c seen1 st1 Hnd Htemps Hinv1 Hmat1 Hend1 Hc)
      as [Hdef1 Hret1].
    split; [done|]. intros seen2 st2 Hrun.
    destruct (Hret1 _ _ Hrun) as (Hmats2 & c2 & Hinv2 & Hend2).
    split; [congruence|]. exists c2. split; [done|].
    rewrite length_app. simpl. by rewrite Nat.add_1_r.
  - split; [done|]. intros seen' st' Hrun.
    destruct (Hret _ _ Hrun) as (_ & c' & Hinv & Hend').
    rewrite length_seq, drop_all in Hend'. simpl in Hend'. by simplify_eq.
Qed.

Lemma read_mgxs_defined (fs : gmap string (hdf5_file G)) st names c :
  build_nuclide_names (nuclide_map st) = Some names →
  nuclides_MG st = [] →
  NoDup names →
  (length names ≤ length (nuc_temps_of st))%nat →
  first_use_end 0 (concat (nuclide_ <$> materials st)) = Some c →
  (c ≤ length names)%nat →
  read_mgxs fs st ≠ Undefined.
Proof.
  intros Hnames Hempty Hnd Htemps Hend Hc.
  pose proof (read_mgxs_cases fs st) as Hcases.
  destruct (fs !! path_cross_sections st) as [file|];
    [|destruct Hcases as [msg ->]; done].
  case_decide; [|destruct Hcases as [msg ->]; done].
  rewrite Hnames in Hcases. rewrite Hcases. unfold mbind, prog_bind.
  destruct (read_mgxs_loops_count file st names c Hempty Hnd Htemps Hend Hc)
    as [Hdef _].
  by destruct (for_each _ _ _ st).
Qed.


(** On such inputs, with a library that passes the checks and has a dataset
    for every name that a material refers to, read_mgxs returns. *)
Lemma read_mgxs_returns (fs : gmap string (hdf5_file G)) st file names c :
  fs !! path_cross_sections st = Some file →
  attr_filetype file = "mgxs"%string →
  attr_version file = VERSION_MGXS_LIBRARY →
  build_nuclide_names (nuclide_map st) = Some names →
  nuclides_MG st = [] →
  NoDup names →
  (length names ≤ length (nuc_temps_of st))%nat →
  first_use_end 0 (concat (nuclide_ <$> materials st)) = Some c →
  (c ≤ length names)%nat →
  (∀ k mat i n, materials st !! k = Some mat → i ∈ nuclide_ mat →
     vec_at names i = Some n → object_exists file n = true) →
  ∃ st', read_mgxs fs st = Returns tt st'.
Proof.
  intros Hfile Hty Hver Hnames Hempty Hnd Htemps Hend Hc Hall.
  pose proof (read_mgxs_defined fs st names c Hnames Hempty Hnd Htemps Hend Hc)
    as Hdef.
  pose proof (read_mgxs_cases fs st) as Hcases.
  rewrite Hfile, Hnames, decide_True in Hcases by done.
  destruct (read_mgxs fs st) as [[] st'|msg st'|] eqn:Hrun; [by exists st'| |done].
  exfalso.
  pose proof (load_inv_materials file names (nuc_temps_of st) st
    (seq 0 (length (materials st))) ∅ st (load_inv_init file st)) as Hloop.
  symmetry in Hcases. unfold mbind, prog_bind in Hcases. unfold wp in Hloop.
  destruct (for_each _ _ _ st) as [seen st1|msg1 st1|]; [done| |done].
  destruct Hloop as (n & _ & k & mat & i & _ & Hex & Hmat & Hi & Hn & _).
  by rewrite (Hall k mat i n) in Hex.
Qed.

(** ** Macroscopic tables *)

Lemma set_macro_xs_id st : set_macro_xs (macro_xs st) st = st.
Proof. by destruct st. Qed.

Lemma collect_mgxs_ptr_step (i_nuclides : list Z) n acc st :
  (st ← get_globals;
   i ← defined (vec_at i_nuclides n);
   j ← defined (int_pred i);
   nuc ← defined (vec_at (nuclides_MG st) j);
   mret (acc ++ [nuc])) st =
  match i ← vec_at i_nuclides n; j ← int_pred i; vec_at (nuclides_MG st) j
  with
  | Some nuc => Returns (acc ++ [nuc]) st
  | None => Undefined
  end.
Proof.
  cbv [mbind prog_bind get_globals option_bind defined mret prog_ret undefined].
  destruct (vec_at i_nuclides n) as [i|]; [|done].
  destruct (int_pred i) as [j|]; [|done].
  by destruct (vec_at (nuclides_MG st) j).
Qed.

Lemma collect_mgxs_ptr (i_nuclides : list Z) ns : ∀ st acc,
  for_each ns
    (λ n mgxs_ptr,
       st ← get_globals;
       i ← defined (vec_at i_nuclides n);
       j ← defined (int_pred i);
       nuc ← defined (vec_at (nuclides_MG st) j);
       mret (mgxs_ptr ++ [nuc])) acc st =
  match mapM (λ n, i ← vec_at i_nuclides n; j ← int_pred i;
                   vec_at (nuclides_MG st) j) ns with
  | Some ptrs => Returns (acc ++ ptrs) st
  | None => Undefined
  end.
Proof.
  induction ns as [|n ns IH]; intros st acc; simpl.
  - by rewrite app_nil_r.
  - unfold mbind at 1, prog_bind at 1. rewrite collect_mgxs_ptr_step.
    destruct (_ ≫= _) as [nuc|]; simpl; [|done].
    rewrite IH.
    destruct (mapM _ ns) as [ptrs|]; simpl; [|done].
    by rewrite <- app_assoc.
Qed.

(** create_macro_xs_c appends the entry of its arguments and changes
    nothing else; it has no fatal error. *)
Lemma create_macro_xs_c_spec m st :
  call_create_macro_xs_c m st =
  match macro_entry (nuclides_MG st) m with
  | Some entry => Returns tt (set_macro_xs (macro_xs st ++ [entry]) st)
  | None => Undefined
  end.
Proof.
  unfold call_create_macro_xs_c, create_macro_xs_c, macro_entry.
  case_decide; [|done].
  unfold mbind at 1, prog_bind at 1.
  destruct (array_prefix (arg_temps m) _) as [temperature|]; simpl; [|done].
  unfold mbind at 1, prog_bind at 1.
  destruct (array_prefix (arg_atom_densities m) _) as [dens|]; simpl; [|done].
  unfold mbind at 1, prog_bind at 1. rewrite collect_mgxs_ptr.
  by destruct (mapM _ _).
Qed.

Lemma create_all_macro_xs_returns mats : ∀ st st',
  create_all_macro_xs mats st = Returns tt st' →
  nuclides_MG st' = nuclides_MG st ∧
  ∃ entries,
    Forall2 (λ m entry, macro_entry (nuclides_MG st) m = Some entry)
      mats entries ∧
    st' = set_macro_xs (macro_xs st ++ entries) st.
Proof.
  unfold create_all_macro_xs, for_.
  induction mats as [|m mats IH]; intros st st' Hrun; simpl in *.
  - injection Hrun as <-. split; [done|]. exists []. split; [constructor|].
    by rewrite app_nil_r, set_macro_xs_id.
  - unfold mbind, prog_bind in Hrun. rewrite create_macro_xs_c_spec in Hrun.
    destruct (macro_entry (nuclides_MG st) m) as [entry|] eqn:Hentry; [|done].
    apply IH in Hrun as (Hstore & entries & Hall & ->). simpl in *.
    split; [done|]. exists (entry :: entries). split; [by constructor|].
    destruct st; unfold set_macro_xs; simpl. by rewrite <- app_assoc.
Qed.

(** C9. A call of create_macro_xs_c with a temperature count of zero appends
    the blank entry; a call that returns has appended exactly one entry and
    changed nothing else, and no call ends in a fatal error; so when the
    tables of all materials are built in declaration order into an empty
    store, the table at position [k] is the one built for the material at
    position [k]. *)
Theorem create_macro_xs_c_keeps_positions :
  (∀ m st, arg_n_temps m = 0 →
     call_create_macro_xs_c m st =
     Returns tt (set_macro_xs (macro_xs st ++ [Mgxs_blank]) st)) ∧
  (∀ m st,
     match call_create_macro_xs_c m st with
     | Returns _ st' =>
         ∃ entry, macro_entry (nuclides_MG st) m = Some entry ∧
                  st' = set_macro_xs (macro_xs st ++ [entry]) st
     | FatalError _ _ => False
     | Undefined => macro_entry (nuclides_MG st) m = None
     end) ∧
  (∀ mats st st',
     macro_xs st = [] →
     create_all_macro_xs mats st = Returns tt st' →
     length (macro_xs st') = length mats ∧
     ∀ k m, mats !! k = Some m →
       ∃ entry, macro_xs st' !! k = Some entry ∧
                macro_entry (nuclides_MG st) m = Some entry ∧
                (arg_n_temps m = 0 → entry = Mgxs_blank)).
Proof.
  split_and!.
  - intros m st Hzero. rewrite create_macro_xs_c_spec. unfold macro_entry.
    by rewrite decide_False by lia.
  - intros m st. rewrite create_macro_xs_c_spec.
    destruct (macro_entry (nuclides_MG st) m) as [entry|]; [|done].
    by exists entry.
  - intros mats st st' Hempty Hrun.
    apply create_all_macro_xs_returns in Hrun as (_ & entries & Hall & ->).
    simpl. rewrite Hempty. simpl. split; [symmetry; by eapply Forall2_length|].
    intros k m Hm.
    destruct (Forall2_lookup_l _ _ _ _ _ Hall Hm) as (entry & Hk & Hentry).
    exists entry. split_and!; [done..|].
    intros Hzero. unfold macro_entry in Hentry.
    rewrite decide_False in Hentry by lia. by injection Hentry.
Qed.

(** ** Lookups *)

Lemma fresh_locals (mem : int_mem) :
  let gout_c := fresh (dom mem) in
  let dg_c := fresh ({[gout_c]} ∪ dom mem) in
  mem !! gout_c = None ∧ mem !! dg_c = None ∧ gout_c ≠ dg_c.
Proof.
  intros gout_c dg_c.
  pose proof (is_fresh (dom mem)) as Hg.
  pose proof (is_fresh ({[gout_c]} ∪ dom mem)) as Hd.
  fold gout_c in Hg. fold dg_c in Hd.
  rewrite not_elem_of_union, not_elem_of_singleton in Hd. destruct Hd as [Hne Hd].
  split_and!; [by apply not_elem_of_dom..|done].
Qed.

Lemma int_pred_Some v : INT_MIN < v → int_pred v = Some (v - 1).
Proof. intros Hv. unfold int_pred. by rewrite decide_True. Qed.

Lemma arg_ok_Some mem a :
  arg_ok mem (Some a) = true → ∃ v, mem !! a = Some v ∧ INT_MIN < v.
Proof.
  simpl. destruct (mem !! a) as [v|]; [|done].
  intros Hv%bool_decide_eq_true. by exists v.
Qed.

(** For valid pointers the frame is there, hands the 0-based values over
    and leaves every object of the caller as it was. *)
Lemma lookup_frame_spec gout dg mem :
  arg_ok mem gout = true → arg_ok mem dg = true →
  ∃ gout_c_p dg_c_p mem_c,
    lookup_frame gout dg mem = Some (gout_c_p, dg_c_p, mem_c) ∧
    passes_0based mem gout mem_c gout_c_p ∧
    passes_0based mem dg mem_c dg_c_p ∧
    ∀ a, is_Some (mem !! a) → mem_c !! a = mem !! a.
Proof.
  intros Hgout Hdg. unfold lookup_frame.
  destruct (fresh_locals mem) as (Hg & Hd & Hne).
  set (gout_c := fresh (dom mem)) in *.
  set (dg_c := fresh ({[gout_c]} ∪ dom mem)) in *.
  destruct gout as [p|], dg as [q|]; simpl.
  - apply arg_ok_Some in Hgout as (v & Hp & Hv).
    apply arg_ok_Some in Hdg as (w & Hq & Hw).
    rewrite Hp. simpl. rewrite (int_pred_Some v Hv). simpl.
    rewrite lookup_insert_ne by congruence.
    rewrite Hq. simpl. rewrite (int_pred_Some w Hw). simpl.
    eexists _, _, _. split; [done|]. split_and!.
    + exists v, gout_c. split_and!; [done..|].
      rewrite lookup_insert_ne by done. by rewrite lookup_insert_eq.
    + exists w, dg_c. split_and!; [done..|]. by rewrite lookup_insert_eq.
    + intros a [u Ha]. rewrite !lookup_insert_ne by congruence. done.
  - apply arg_ok_Some in Hgout as (v & Hp & Hv).
    rewrite Hp. simpl. rewrite (int_pred_Some v Hv). simpl.
    eexists _, _, _. split; [done|]. split_and!; [|done|].
    + exists v, gout_c. split_and!; [done..|]. by rewrite lookup_insert_eq.
    + intros a [u Ha]. rewrite !lookup_insert_ne by congruence. done.
  - apply arg_ok_Some in Hdg as (w & Hq & Hw).
    rewrite Hq. simpl. rewrite (int_pred_Some w Hw). simpl.
    eexists _, _, _. split; [done|]. split_and!; [done| |].
    + exists w, dg_c. split_and!; [done..|]. by rewrite lookup_insert_eq.
    + intros a [u Ha]. rewrite !lookup_insert_ne by congruence. done.
  - eexists _, _, _. split; [done|]. by split_and!.
Qed.

(** The two lookups are the frame, the 0-based handle and group, and the
    call of [get_xs]. *)
Lemma get_nuclide_xs_c_unfold st index xstype gin gout mu dg mem :
  get_nuclide_xs_c st index xstype gin gout mu dg mem =
  ('(gout_c_p, dg_c_p, mem_c) ← lookup_frame gout dg mem;
   i ← int_pred index;
   nuc ← vec_at (nuclides_MG st) i;
   g ← int_pred gin;
   Some ((get_xs nuc xstype g gout_c_p mu dg_c_p mem_c).1,
         delete (fresh ({[fresh (dom mem)]} ∪ dom mem))
           (delete (fresh (dom mem))
              (get_xs nuc xstype g gout_c_p mu dg_c_p mem_c).2))).
Proof.
  unfold get_nuclide_xs_c, lookup_frame.
  destruct gout as [p|], dg as [q|]; simpl;
    repeat (match goal with
            | |- context [?m !! ?a] =>
                lazymatch type of m with
                | gmap _ _ => destruct (m !! a); simpl; [|done]
                end
            | |- context [int_pred ?v] => destruct (int_pred v); simpl; [|done]
            | |- context [vec_at ?l ?i] => destruct (vec_at l i); simpl; [|done]
            end);
    by destruct (get_xs _ _ _ _ _ _ _).
Qed.

Lemma get_macro_xs_c_unfold st index xstype gin gout mu dg mem :
  get_macro_xs_c st index xstype gin gout mu dg mem =
  ('(gout_c_p, dg_c_p, mem_c) ← lookup_frame gout dg mem;
   i ← int_pred index;
   mat ← vec_at (macro_xs st) i;
   g ← int_pred gin;
   Some ((get_xs mat xstype g gout_c_p mu dg_c_p mem_c).1,
         delete (fresh ({[fresh (dom mem)]} ∪ dom mem))
           (delete (fresh (dom mem))
              (get_xs mat xstype g gout_c_p mu dg_c_p mem_c).2))).
Proof.
  unfold get_macro_xs_c, lookup_frame.
  destruct gout as [p|], dg as [q|]; simpl;
    repeat (match goal with
            | |- context [?m !! ?a] =>
                lazymatch type of m with
                | gmap _ _ => destruct (m !! a); simpl; [|done]
                end
            | |- context [int_pred ?v] => destruct (int_pred v); simpl; [|done]
            | |- context [vec_at ?l ?i] => destruct (vec_at l i); simpl; [|done]
            end);
    by destruct (get_xs _ _ _ _ _ _ _).
Qed.

(** C8. get_nuclide_xs_c and get_macro_xs_c hand the internal lookup the
    table of the 1-based handle, the incoming group minus one and, for each
    of [gout] and [dg], null when the caller passed null and otherwise the
    address of a local that holds the caller's value minus one. *)
Theorem lookups_translate_to_0based :
  (∀ st index xstype gin gout mu dg mem nuc,
     vec_at (nuclides_MG st) (index - 1) = Some nuc →
     INT_MIN < gin →
     arg_ok mem gout = true → arg_ok mem dg = true →
     ∃ gout_c_p dg_c_p mem_c,
       passes_0based mem gout mem_c gout_c_p ∧
       passes_0based mem dg mem_c dg_c_p ∧
       fst <$> get_nuclide_xs_c st index xstype gin gout mu dg mem =
       Some (get_xs nuc xstype (gin - 1) gout_c_p mu dg_c_p mem_c).1) ∧
  (∀ st index xstype gin gout mu dg mem mat,
     vec_at (macro_xs st) (index - 1) = Some mat →
     INT_MIN < gin →
     arg_ok mem gout = true → arg_ok mem dg = true →
     ∃ gout_c_p dg_c_p mem_c,
       passes_0based mem gout mem_c gout_c_p ∧
       passes_0based mem dg mem_c dg_c_p ∧
       fst <$> get_macro_xs_c st index xstype gin gout mu dg mem =
       Some (get_xs mat xstype (gin - 1) gout_c_p mu dg_c_p mem_c).1).
Proof.
  split.
  - intros st index xstype gin gout mu dg mem nuc Hnuc Hgin Hgout Hdg.
    destruct (lookup_frame_spec gout dg mem Hgout Hdg)
      as (gout_c_p & dg_c_p & mem_c & Hframe & Hpg & Hpd & _).
    exists gout_c_p, dg_c_p, mem_c. split_and!; [done..|].
    rewrite get_nuclide_xs_c_unfold, Hframe. simpl.
    apply vec_at_lt in Hnuc as Hindex.
    rewrite (int_pred_Some index) by int_lia. simpl. rewrite Hnuc. simpl.
    by rewrite (int_pred_Some gin) by done.
  - intros st index xstype gin gout mu dg mem mat Hmat Hgin Hgout Hdg.
    destruct (lookup_frame_spec gout dg mem Hgout Hdg)
      as (gout_c_p & dg_c_p & mem_c & Hframe & Hpg & Hpd & _).
    exists gout_c_p, dg_c_p, mem_c. split_and!; [done..|].
    rewrite get_macro_xs_c_unfold, Hframe. simpl.
    apply vec_at_lt in Hmat as Hindex.
    rewrite (int_pred_Some index) by int_lia. simpl. rewrite Hmat. simpl.
    by rewrite (int_pred_Some gin) by done.
Qed.

(** Whatever the pointers are, the frame differs from the caller's memory
    at the two locals only, and only their addresses are handed over. *)
Lemma lookup_frame_Some gout dg mem gout_c_p dg_c_p mem_c :
  lookup_frame gout dg mem = Some (gout_c_p, dg_c_p, mem_c) →
  let gout_c := fresh (dom mem) in
  let dg_c := fresh ({[gout_c]} ∪ dom mem) in
  (gout_c_p = None ∨ gout_c_p = Some gout_c) ∧
  (dg_c_p = None ∨ dg_c_p = Some dg_c) ∧
  ∀ a, a ≠ gout_c → a ≠ dg_c → mem_c !! a = mem !! a.
Proof.
  intros Hframe. cbv zeta. unfold lookup_frame in Hframe.
  destruct gout as [p|], dg as [q|]; simpl in Hframe;
    repeat (match type of Hframe with
            | context [?m !! ?a] =>
                lazymatch type of m with
                | gmap _ _ => destruct (m !! a); simpl in Hframe; [|done]
                end
            | context [int_pred ?v] =>
                destruct (int_pred v); simpl in Hframe; [|done]
            end);
    simplify_eq;
    (split; [auto|split; [auto|]]); intros a Hg Hd;
    by rewrite ?lookup_insert_ne by done.
Qed.

Lemma lookup_result_frame (tbl : Mgxs) xstype g gout dg mu mem
    gout_c_p dg_c_p mem_c :
  (∀ nuc x g po mu pd m a, po ≠ Some a → pd ≠ Some a →
     (get_xs nuc x g po mu pd m).2 !! a = m !! a) →
  lookup_frame gout dg mem = Some (gout_c_p, dg_c_p, mem_c) →
  delete (fresh ({[fresh (dom mem)]} ∪ dom mem))
    (delete (fresh (dom mem))
       (get_xs tbl xstype g gout_c_p mu dg_c_p mem_c).2) = mem.
Proof.
  intros Hxs Hframe.
  destruct (lookup_frame_Some _ _ _ _ _ _ Hframe) as (Hgp & Hdp & Hsame).
  destruct (fresh_locals mem) as (Hg & Hd & Hne).
  apply map_eq. intros a.
  destruct (decide (a = fresh ({[fresh (dom mem)]} ∪ dom mem))) as [->|Hda].
  { by rewrite lookup_delete_eq. }
  rewrite lookup_delete_ne by done.
  destruct (decide (a = fresh (dom mem))) as [->|Hga].
  { by rewrite lookup_delete_eq. }
  rewrite lookup_delete_ne by done.
  rewrite Hxs; [by apply Hsame| |].
  - destruct Hgp as [->| ->]; congruence.
  - destruct Hdp as [->| ->]; congruence.
Qed.

(** C10. Given that [get_xs] writes to no [int] but through the two
    pointers it is handed, a call of get_nuclide_xs_c or get_macro_xs_c that
    returns leaves the caller's memory as it was; so [*gout] and [*dg], when
    not null, hold what they held before the call. *)
Theorem lookups_leave_caller_ints_unchanged
    st index xstype gin gout mu dg mem xs mem' :
  (∀ nuc x g po mu pd m a, po ≠ Some a → pd ≠ Some a →
     (get_xs nuc x g po mu pd m).2 !! a = m !! a) →
  get_nuclide_xs_c st index xstype gin gout mu dg mem = Some (xs, mem') ∨
  get_macro_xs_c st index xstype gin gout mu dg mem = Some (xs, mem') →
  (∀ p, gout = Some p → mem' !! p = mem !! p) ∧
  (∀ p, dg = Some p → mem' !! p = mem !! p) ∧
  mem' = mem.
Proof.
  intros Hxs Hrun.
  enough (mem' = mem) as -> by done.
  destruct Hrun as [Hrun|Hrun];
    [rewrite get_nuclide_xs_c_unfold in Hrun
    |rewrite get_macro_xs_c_unfold in Hrun];
    destruct (lookup_frame gout dg mem) as [[[gout_c_p dg_c_p] mem_c]|]
      eqn:Hframe; simpl in Hrun; try done;
    destruct (int_pred index) as [i|]; simpl in Hrun; try done;
    [destruct (vec_at (nuclides_MG st) i) as [tbl|]
    |destruct (vec_at (macro_xs st) i) as [tbl|]]; simpl in Hrun; try done;
    destruct (int_pred gin) as [g|]; simpl in Hrun; try done;
    injection Hrun as _ <-; by eapply lookup_result_frame.
Qed.


(** ** More on the header *)

(** The state that the header reader leaves after the grid part, lines
    164-177, for a file with both attributes and at least one boundary. *)
Lemma read_header_no_dataset file st n bins :
  attr_energy_groups file = Some n →
  attr_group_structure file = Some bins →
  let grid := energy_bins st ++ reverse bins in
  1 ≤ Z.of_nat (length grid) ≤ INT_MAX + 1 →
  group_names file = [] →
  ∃ avgs,
    mapM (bin_midpoint grid) (seqZ 0 (Z.of_nat (length grid) - 1)) = Some avgs ∧
    read_mg_cross_sections_header_c file st =
    FatalError
      "At least one MGXS data set must be present in mgxs library file!"
      (Globals (path_cross_sections st) (nuclide_map st) (materials st)
         (nuclides_MG st) (macro_xs st) n grid (energy_bin_avg st ++ avgs)
         bins (libraries st)).
Proof.
  intros Hn Hbins grid Hlen Hnames.
  destruct (grid_midpoints_defined grid) as [avgs Havgs].
  exists avgs. split; [done|].
  unfold read_mg_cross_sections_header_c. rewrite Hn, Hbins, Hnames.
  unfold mbind, prog_bind at 1 2 3 4 5 6 7 8; simpl.
  fold grid.
  assert (size_t_sub (Z.of_nat (length grid)) 1 = Z.of_nat (length grid) - 1)
    as ->.
  { unfold size_t_sub. apply Z.mod_small. unfold INT_MAX in Hlen. lia. }
  erewrite bind_returns; cycle 1.
  { apply for_energy_bin_avg_steps; [done|].
    apply Forall_seqZ. intros i Hi. lia. }
  done.
Qed.

(** X1. A library without a dataset is refused only after the grid has been
    written.  When both attributes are there and the grid ends up with at
    least one and at most [INT_MAX + 1] boundaries, the call ends in the
    fatal error about the missing dataset, and at that point the group
    count and the descending list are those of the file, the reversed
    boundaries have been appended to the grid, the averages that were
    there are kept and one midpoint for every pair of neighbours of the
    whole grid has been appended to them, and the catalogue is as
    before. *)
Theorem header_no_dataset_fatal_after_grid file st n bins :
  attr_energy_groups file = Some n →
  attr_group_structure file = Some bins →
  1 ≤ Z.of_nat (length (energy_bins st ++ reverse bins)) ≤ INT_MAX + 1 →
  group_names file = [] →
  ∃ st',
    read_mg_cross_sections_header_c file st =
    FatalError
      "At least one MGXS data set must be present in mgxs library file!" st' ∧
    num_energy_groups st' = n ∧
    rev_energy_bins st' = bins ∧
    energy_bins st' = energy_bins st ++ reverse bins ∧
    libraries st' = libraries st ∧
    ∃ avgs,
      energy_bin_avg st' = energy_bin_avg st ++ avgs ∧
      length avgs = (length (energy_bins st') - 1)%nat ∧
      ∀ k avg, avgs !! k = Some avg →
        bin_midpoint (energy_bins st') (Z.of_nat k) = Some avg.
Proof.
  intros Hn Hbins Hlen Hnames.
  destruct (read_header_no_dataset file st n bins Hn Hbins Hlen Hnames)
    as (avgs & Havgs & Hrun).
  eexists. split; [exact Hrun|]. simpl. split_and!; [done..|].
  exists avgs. split; [done|].
  apply mapM_Some_1 in Havgs. split.
  - apply Forall2_length in Havgs. rewrite length_seqZ in Havgs.
    rewrite <- Havgs. lia.
  - intros k avg Hk.
    destruct (Forall2_lookup_r _ _ _ _ _ Havgs Hk) as (i & Hi & Hmid).
    apply lookup_seqZ in Hi as [-> _]. by rewrite Z.add_0_l in Hmid.
Qed.

(** X2. A missing attribute is fatal before the grid is touched; when it is the
    group structure that is missing, the group count has been stored
    already. *)
Theorem header_missing_attribute file st :
  attr_energy_groups file = None ∨ attr_group_structure file = None →
  ∃ msg st',
    read_mg_cross_sections_header_c file st = FatalError msg st' ∧
    energy_bins st' = energy_bins st ∧
    energy_bin_avg st' = energy_bin_avg st ∧
    rev_energy_bins st' = rev_energy_bins st ∧
    libraries st' = libraries st ∧
    match attr_energy_groups file with
    | None => st' = st
    | Some n => st' = set_num_energy_groups n st
    end.
Proof.
  intros Hmissing. unfold read_mg_cross_sections_header_c.
  destruct (attr_energy_groups file) as [n|] eqn:Hn.
  - destruct Hmissing as [?|Hbins]; [done|]. rewrite Hbins.
    by eexists _, _.
  - by eexists _, _.
Qed.

(** X3. Whatever the grid holds before, a read that returns appends the
    ascending boundaries to it, replaces the descending list and the group
    count by those of the file, and appends one average for every pair of
    neighbours of the whole grid. *)
Theorem header_appends_to_grid file st n bins :
  attr_energy_groups file = Some n →
  attr_group_structure file = Some bins →
  1 ≤ Z.of_nat (length (energy_bins st ++ reverse bins)) ≤ INT_MAX + 1 →
  group_names file ≠ [] →
  ∃ st',
    read_mg_cross_sections_header_c file st = Returns tt st' ∧
    num_energy_groups st' = n ∧
    rev_energy_bins st' = bins ∧
    energy_bins st' = energy_bins st ++ reverse bins ∧
    ∃ avgs,
      energy_bin_avg st' = energy_bin_avg st ++ avgs ∧
      length avgs = (length (energy_bins st') - 1)%nat ∧
      ∀ k avg, avgs !! k = Some avg →
        bin_midpoint (energy_bins st') (Z.of_nat k) = Some avg.
Proof.
  intros Hn Hbins Hlen Hnames.
  destruct (read_header_returns file st n bins Hn Hbins Hlen Hnames)
    as (avgs & Havgs & Hrun).
  eexists. split; [exact Hrun|]. simpl. split_and!; [done..|].
  exists avgs. split; [done|].
  apply mapM_Some_1 in Havgs. split.
  - apply Forall2_length in Havgs. rewrite length_seqZ in Havgs.
    rewrite <- Havgs. lia.
  - intros k avg Hk.
    destruct (Forall2_lookup_r _ _ _ _ _ Havgs Hk) as (i & Hi & Hmid).
    apply lookup_seqZ in Hi as [-> _]. by rewrite Z.add_0_l in Hmid.
Qed.

(** X4. A read that returns appends to the catalogue one neutron entry for each
    top-level group of the file, in the order of the file, and changes
    nothing of the path, the nuclide map, the materials and the two
    stores. *)
Theorem header_catalogue file st n bins :
  attr_energy_groups file = Some n →
  attr_group_structure file = Some bins →
  1 ≤ Z.of_nat (length (energy_bins st ++ reverse bins)) ≤ INT_MAX + 1 →
  group_names file ≠ [] →
  ∃ st',
    read_mg_cross_sections_header_c file st = Returns tt st' ∧
    libraries st' =
    libraries st ++ ((λ name, Mk_Library neutron [name]) <$> group_names file) ∧
    length (libraries st') =
    (length (libraries st) + length (file_groups file))%nat ∧
    path_cross_sections st' = path_cross_sections st ∧
    nuclide_map st' = nuclide_map st ∧
    materials st' = materials st ∧
    nuclides_MG st' = nuclides_MG st ∧
    macro_xs st' = macro_xs st.
Proof.
  intros Hn Hbins Hlen Hnames.
  destruct (read_header_returns file st n bins Hn Hbins Hlen Hnames)
    as (avgs & _ & Hrun).
  eexists. split; [exact Hrun|]. simpl. split_and!; [done| |done..].
  unfold group_names. by rewrite length_app, !length_fmap.
Qed.

(** ** More on read_mgxs *)

(** A property of the data that every turn of the inner loop keeps, on a
    return as on a fatal error, holds when the loops end. *)
Lemma read_mgxs_loops_keep (P : globals → Prop) (file : hdf5_file G)
    names temps st0 ks seen0 :
  P st0 →
  (∀ k mat0 i seen st,
     P st → materials st0 !! k = Some mat0 → i ∈ nuclide_ mat0 →
     wp (read_mgxs_nuclide file names temps k i seen) st
        (λ _ st', P st') (λ _ st', P st')) →
  wp (for_each ks (read_mgxs_material file names temps) seen0) st0
     (λ _ st', P st') (λ _ st', P st').
Proof.
  intros HP Hstep.
  set (Q := λ st, P st ∧ nuclide_ <$> materials st = nuclide_ <$> materials st0).
  assert (∀ k i seen st, Q st →
            (∃ mat, materials st !! k = Some mat ∧ i ∈ nuclide_ mat) →
            wp (read_mgxs_nuclide file names temps k i seen) st
               (λ _ st', Q st') (λ _ st', P st')) as Hstep'.
  { intros k i seen st [HPst Hmats] (mat & Hmat & Hi).
    assert (nuclide_ <$> materials st0 !! k = Some (nuclide_ mat)) as Hlk
      by (by rewrite <- list_lookup_fmap, <- Hmats, list_lookup_fmap, Hmat).
    apply fmap_Some in Hlk as (mat0 & Hmat0 & Heq).
    rewrite Heq in Hi.
    pose proof (Hstep k mat0 i seen st HPst Hmat0 Hi) as Hwp.
    pose proof (read_mgxs_nuclide_spec file names temps k i seen st) as Hspec.
    unfold wp in *.
    destruct (read_mgxs_nuclide file names temps k i seen st)
      as [seen' st'|msg st'|]; [|done..].
    split; [done|].
    destruct Hspec as (n & nuc & _ & _ & _ & ->). simpl.
    destruct (fissionable nuc); [|done]. by rewrite nuclide_alter_flag. }
  eapply wp_mono;
    [apply (wp_for_each (λ _ _ st', Q st'))
    |by intros ? ? [? _]|intros msg st' HPst; exact HPst].
  - by split.
  - intros _ k _ seen1 st1 _ HQ1. unfold read_mgxs_material.
    apply wp_bind, wp_get, wp_bind, wp_defined. intros mat Hmat.
    eapply wp_mono;
      [apply (wp_for_each (λ _ _ st', Q st' ∧ materials st' !! k = Some mat ∨
                                      Q st' ∧ ∃ mat', materials st' !! k = Some mat' ∧
                                                     nuclide_ mat' = nuclide_ mat))
      | |intros msg st' HPst; exact HPst].
    + by left.
    + intros done i rest seen2 st2 Hl Hinv.
      assert (Q st2 ∧ ∃ mat', materials st2 !! k = Some mat' ∧
                              nuclide_ mat' = nuclide_ mat)
        as (HQ2 & mat2 & Hmat2 & Hnucs).
      { destruct Hinv as [[? ?]|[? ?]]; [|done]. split; [done|]. by exists mat. }
      assert (i ∈ nuclide_ mat2) as Hi.
      { rewrite Hnucs, Hl. apply elem_of_app. right. left. }
      pose proof (Hstep' k i seen2 st2 HQ2 (ex_intro _ mat2 (conj Hmat2 Hi)))
        as Hwp.
      pose proof (read_mgxs_nuclide_spec file names temps k i seen2 st2)
        as Hspec.
      unfold wp in *.
      destruct (read_mgxs_nuclide file names temps k i seen2 st2)
        as [seen' st'|msg st'|]; [|done..].
      right. split; [done|].
      destruct Hspec as (n & nuc & _ & _ & _ & ->). simpl.
      destruct (fissionable nuc); [|by exists mat2].
      rewrite list_lookup_alter_eq, Hmat2. simpl. by eexists.
    + intros seen' st' [[? _]|[? _]]; done.
Qed.

Lemma flags_only_raised_refl mats : flags_only_raised mats mats.
Proof. apply Forall2_same_length_lookup_2; [done|]. intros i m m' ? ?. by simplify_eq. Qed.

Lemma flags_only_raised_alter mats mats' k :
  flags_only_raised mats mats' →
  flags_only_raised mats (alter (set_fissionable_ true) k mats').
Proof.
  intros Hraised. apply Forall2_same_length_lookup.
  apply Forall2_same_length_lookup in Hraised as [Hlen Hall].
  split; [by rewrite length_alter|].
  intros j mat mat' Hmat Hmat'.
  destruct (decide (j = k)) as [->|Hne].
  - rewrite list_lookup_alter_eq in Hmat'.
    apply fmap_Some in Hmat' as (mat1 & Hmat1 & ->).
    destruct (Hall k mat mat1 Hmat Hmat1) as [? _]. by split.
  - rewrite list_lookup_alter_ne in Hmat' by done. by apply (Hall j).
Qed.

Lemma load_frame_refl st : load_frame st st.
Proof.
  split_and!; try done; [by exists []; rewrite app_nil_r|].
  apply flags_only_raised_refl.
Qed.

Lemma load_frame_step (file : hdf5_file G) names temps k i seen st0 st :
  load_frame st0 st →
  wp (read_mgxs_nuclide file names temps k i seen) st
     (λ _ st', load_frame st0 st') (λ _ st', load_frame st0 st').
Proof.
  intros Hframe.
  eapply wp_mono; [apply read_mgxs_nuclide_spec| |].
  - intros seen' st' (n & nuc & _ & Hstore & _ & ->).
    destruct Hframe as (? & ? & ? & ? & ? & ? & ? & ? & [added Hadded] & ?).
    split_and!; try done.
    + destruct Hstore as [(_ & _ & Heq)|(_ & _ & g & t & _ & _ & Heq)];
        simpl; rewrite Heq, Hadded; [by eexists|].
      rewrite <- app_assoc. by eexists.
    + simpl. destruct (fissionable nuc); [|done].
      by apply flags_only_raised_alter.
  - by intros msg st' (n & _ & _ & _ & _ & ->).
Qed.

(** X5. What read_mgxs leaves alone, whether it returns or ends in a
    fatal error: the path, the nuclide map, the macroscopic tables, the
    energy grid and the library catalogue are those it started with; the
    nuclide store is the old one with tables appended; the materials are
    the same in number and in nuclides, and no flag that was set is
    cleared. *)
Theorem read_mgxs_frame (fs : gmap string (hdf5_file G)) st :
  match read_mgxs fs st with
  | Returns _ st' | FatalError _ st' =>
      path_cross_sections st' = path_cross_sections st ∧
      nuclide_map st' = nuclide_map st ∧
      macro_xs st' = macro_xs st ∧
      num_energy_groups st' = num_energy_groups st ∧
      energy_bins st' = energy_bins st ∧
      energy_bin_avg st' = energy_bin_avg st ∧
      rev_energy_bins st' = rev_energy_bins st ∧
      libraries st' = libraries st ∧
      (∃ added, nuclides_MG st' = nuclides_MG st ++ added) ∧
      length (materials st') = length (materials st) ∧
      ∀ k mat, materials st !! k = Some mat →
        ∃ mat', materials st' !! k = Some mat' ∧
                nuclide_ mat' = nuclide_ mat ∧
                (fissionable_ mat = true → fissionable_ mat' = true)
  | Undefined => True
  end.
Proof.
  assert (wp (read_mgxs fs) st (λ _ st', load_frame st st')
             (λ _ st', load_frame st st')) as Hwp.
  { pose proof (read_mgxs_cases fs st) as Hrun.
    destruct (fs !! path_cross_sections st) as [file|];
      [|destruct Hrun as [msg Hrun]; unfold wp; rewrite Hrun;
        apply load_frame_refl].
    case_decide;
      [|destruct Hrun as [msg Hrun]; unfold wp; rewrite Hrun;
        apply load_frame_refl].
    destruct (build_nuclide_names (nuclide_map st)) as [names|];
      [|unfold wp; by rewrite Hrun].
    unfold wp at 1. rewrite Hrun. apply wp_bind.
    eapply wp_mono;
      [apply (read_mgxs_loops_keep (load_frame st));
       [apply load_frame_refl|]
      |intros a st' Hframe; apply wp_ret; exact Hframe
      |intros msg st' Hframe; exact Hframe].
    intros k mat0 i seen st1 Hframe _ _. by apply load_frame_step. }
  assert (∀ st', load_frame st st' →
            path_cross_sections st' = path_cross_sections st ∧
            nuclide_map st' = nuclide_map st ∧
            macro_xs st' = macro_xs st ∧
            num_energy_groups st' = num_energy_groups st ∧
            energy_bins st' = energy_bins st ∧
            energy_bin_avg st' = energy_bin_avg st ∧
            rev_energy_bins st' = rev_energy_bins st ∧
            libraries st' = libraries st ∧
            (∃ added, nuclides_MG st' = nuclides_MG st ++ added) ∧
            length (materials st') = length (materials st) ∧
            ∀ k mat, materials st !! k = Some mat →
              ∃ mat', materials st' !! k = Some mat' ∧
                      nuclide_ mat' = nuclide_ mat ∧
                      (fissionable_ mat = true → fissionable_ mat' = true))
    as Hout.
  { intros st' (? & ? & ? & ? & ? & ? & ? & ? & ? & Hraised).
    split_and!; try done.
    - symmetry. by eapply Forall2_length.
    - intros k mat Hmat.
      destruct (Forall2_lookup_l _ _ _ _ _ Hraised Hmat) as (mat' & ? & ? & ?).
      by exists mat'. }
  unfold wp in Hwp. destruct (read_mgxs fs st); [by apply Hout..|done].
Qed.

(** X6. Every table that read_mgxs appends, on a return as on a fatal
    error, is the table of a nuclide that some material lists, built from
    the dataset that carries the nuclide's name and from the nuclide's
    temperatures: nothing is loaded that no material refers to. *)
Theorem read_mgxs_loads_only_referenced (fs : gmap string (hdf5_file G))
    st file names :
  fs !! path_cross_sections st = Some file →
  build_nuclide_names (nuclide_map st) = Some names →
  match read_mgxs fs st with
  | Returns _ st' | FatalError _ st' =>
      ∃ added,
        nuclides_MG st' = nuclides_MG st ++ added ∧
        ∀ nuc, nuc ∈ added →
          ∃ k mat i_nuc n g t,
            materials st !! k = Some mat ∧ i_nuc ∈ nuclide_ mat ∧
            vec_at names i_nuc = Some n ∧ open_group file n = Some g ∧
            vec_at (nuc_temps_of st) i_nuc = Some t ∧
            nuc = Mgxs_from_hdf5 n g t
  | Undefined => True
  end.
Proof.
  intros Hfile Hnames.
  set (P := λ st' : globals, ∃ added,
              nuclides_MG st' = nuclides_MG st ++ added ∧
              Forall (referenced_table file names (nuc_temps_of st) st) added).
  assert (P st) as Hinit by (exists []; by rewrite app_nil_r).
  assert (wp (read_mgxs fs) st (λ _ st', P st') (λ _ st', P st')) as Hwp.
  { pose proof (read_mgxs_cases fs st) as Hrun.
    rewrite Hfile, Hnames in Hrun.
    case_decide;
      [|destruct Hrun as [msg Hrun]; unfold wp; by rewrite Hrun].
    unfold wp at 1. rewrite Hrun. apply wp_bind.
    eapply wp_mono;
      [apply (read_mgxs_loops_keep P); [exact Hinit|]
      |intros a st' HP; apply wp_ret; exact HP
      |intros msg st' HP; exact HP].
    intros k mat0 i seen st1 [added [Hadded Hall]] Hmat0 Hi.
    eapply wp_mono; [apply read_mgxs_nuclide_spec| |].
    - intros seen' st' (n & nuc & Hn & Hstore & _ & ->).
      destruct Hstore as [(_ & _ & Heq)|(_ & _ & g & t & Hg & Ht & Heq)];
        simpl; rewrite Heq, Hadded; [by exists added|].
      exists (added ++ [Mgxs_from_hdf5 n g t]).
      split; [by rewrite <- app_assoc|].
      apply Forall_app. split; [done|]. apply Forall_singleton.
      exists k, mat0, i. split_and!; [done..|].
      unfold nuclide_table. rewrite Hn. simpl. rewrite Hg. simpl. by rewrite Ht.
    - intros msg st' (n & _ & _ & _ & _ & ->). by exists added. }
  assert (∀ st', P st' →
            ∃ added,
              nuclides_MG st' = nuclides_MG st ++ added ∧
              ∀ nuc, nuc ∈ added →
                ∃ k mat i_nuc n g t,
                  materials st !! k = Some mat ∧ i_nuc ∈ nuclide_ mat ∧
                  vec_at names i_nuc = Some n ∧ open_group file n = Some g ∧
                  vec_at (nuc_temps_of st) i_nuc = Some t ∧
                  nuc = Mgxs_from_hdf5 n g t) as Hout.
  { intros st' [added [Hadded Hall]]. exists added. split; [done|].
    intros nuc Hnuc. rewrite Forall_forall in Hall.
    destruct (Hall nuc Hnuc) as (k & mat & i & Hmat & Hi & Htable).
    unfold nuclide_table in Htable.
    destruct (vec_at names i) as [n|] eqn:Hn; [|done]. simpl in Htable.
    destruct (open_group file n) as [g|] eqn:Hg; [|done]. simpl in Htable.
    destruct (vec_at (nuc_temps_of st) i) as [t|] eqn:Ht; [|done].
    simpl in Htable. exists k, mat, i, n, g, t. by simplify_eq. }
  unfold wp in Hwp. destruct (read_mgxs fs st); [by apply Hout..|done].
Qed.

(** X7. read_mgxs makes its checks in a fixed order and reports the first
    that fails, with the data untouched: a missing file is reported with
    its path; a file of another type is reported as such even when its
    version is wrong as well. *)
Theorem read_mgxs_first_failed_check (fs : gmap string (hdf5_file G)) st :
  match fs !! path_cross_sections st with
  | None =>
      read_mgxs fs st =
      FatalError ("Cross sections HDF5 file '" +:+ path_cross_sections st +:+
                  "' does not exist.") st
  | Some file =>
      if decide (attr_filetype file = "mgxs"%string) then
        if decide (attr_version file = VERSION_MGXS_LIBRARY) then
          ∀ msg st', read_mgxs fs st = FatalError msg st' →
            ∃ n, msg = missing_data_msg n ∧ object_exists file n = false
        else
          read_mgxs fs st =
          FatalError ("MGXS Library file version does not match current " +:+
                      "version supported by OpenMC.") st
      else
        read_mgxs fs st =
        FatalError "Provided MGXS Library is not a MGXS Library file." st
  end.
Proof.
  destruct (fs !! path_cross_sections st) as [file|] eqn:Hfile.
  - destruct (decide (attr_filetype file = "mgxs"%string)) as [Hty|Hty].
    + destruct (decide (attr_version file = VERSION_MGXS_LIBRARY))
        as [Hver|Hver].
      * intros msg st' Hrun.
        pose proof (read_mgxs_cases fs st) as Hcases.
        rewrite Hfile, decide_True in Hcases by done.
        destruct (build_nuclide_names (nuclide_map st)) as [names|];
          [|congruence].
        rewrite Hcases in Hrun.
        pose proof (load_inv_materials file names (nuc_temps_of st) st
                      (seq 0 (length (materials st))) ∅ st
                      (load_inv_init file st)) as Hloops.
        unfold wp in Hloops. unfold mbind, prog_bind in Hrun.
        destruct (for_each _ _ _ st) as [a st1|msg1 st1|]; [done| |done].
        simplify_eq.
        destruct Hloops as (n & _ & _ & _ & _ & -> & Hn & _). by exists n.
      * unfold read_mgxs.
        cbv beta iota delta [mbind prog_bind get_globals fatal_error].
        rewrite Hfile.
        rewrite (decide_False (P := attr_filetype file ≠ _)) by auto.
        by rewrite (decide_True (P := attr_version file ≠ _)) by done.
    + unfold read_mgxs.
      cbv beta iota delta [mbind prog_bind get_globals fatal_error].
      rewrite Hfile.
      by rewrite (decide_True (P := attr_filetype file ≠ _)) by done.
  - unfold read_mgxs.
    cbv beta iota delta [mbind prog_bind get_globals fatal_error].
    by rewrite Hfile.
Qed.

(** ** The vector of nuclide names *)

Local Abbreviation names_step :=
  (λ (acc : option (list string)) (kv : string * Z),
     nuclide_names ← acc;
     _ ← vec_at nuclide_names kv.2;
     Some (<[Z.to_nat kv.2 := kv.1]> nuclide_names)).

Lemma names_step_None (kvs : list (string * Z)) :
  foldl names_step None kvs = None.
Proof. by induction kvs. Qed.

Lemma names_step_cons (kv : string * Z) kvs l0 :
  foldl names_step (Some l0) (kv :: kvs) =
  if decide (0 ≤ kv.2 < Z.of_nat (length l0))
  then foldl names_step (Some (<[Z.to_nat kv.2 := kv.1]> l0)) kvs
  else None.
Proof.
  simpl. destruct (vec_at l0 kv.2) as [x|] eqn:Hat; simpl.
  - apply vec_at_lt in Hat. by rewrite decide_True.
  - rewrite names_step_None. case_decide as Hr; [|done].
    unfold vec_at in Hat. rewrite decide_True in Hat by lia.
    apply lookup_ge_None in Hat. lia.
Qed.

(** The writes stay inside the vector, and a position that no entry of
    the map names keeps its initial value. *)
Lemma names_step_frame (kvs : list (string * Z)) : ∀ l0 l,
  foldl names_step (Some l0) kvs = Some l →
  length l = length l0 ∧
  Forall (λ kv, 0 ≤ kv.2 < Z.of_nat (length l0)) kvs ∧
  ∀ j, (∀ kv, kv ∈ kvs → Z.to_nat kv.2 ≠ j) → l !! j = l0 !! j.
Proof.
  induction kvs as [|kv kvs IH]; intros l0 l Hfold.
  - simpl in Hfold. simplify_eq. split_and!; [done|constructor|done].
  - rewrite names_step_cons in Hfold. case_decide as Hr; [|done].
    destruct (IH _ _ Hfold) as (Hlen & Hall & Hkeep).
    rewrite length_insert in Hlen, Hall. split_and!; [done|by constructor|].
    intros j Hj. rewrite Hkeep.
    + apply list_lookup_insert_ne. apply Hj. left.
    + intros kv' Hin. apply Hj. by right.
Qed.

Lemma names_step_defined (kvs : list (string * Z)) : ∀ l0,
  Forall (λ kv, 0 ≤ kv.2 < Z.of_nat (length l0)) kvs →
  is_Some (foldl names_step (Some l0) kvs).
Proof.
  induction kvs as [|kv kvs IH]; intros l0 Hall; [by eexists|].
  apply Forall_cons in Hall as [Hr Hall].
  rewrite names_step_cons, decide_True by done.
  apply IH. by rewrite length_insert.
Qed.

(** With no index named twice, every entry of the map is in its place. *)
Lemma names_step_written (kvs : list (string * Z)) : ∀ l0 l,
  NoDup kvs.*2 →
  foldl names_step (Some l0) kvs = Some l →
  ∀ kv, kv ∈ kvs → l !! Z.to_nat kv.2 = Some kv.1.
Proof.
  induction kvs as [|kv kvs IH]; intros l0 l Hnd Hfold kv' Hin;
    [by apply elem_of_nil in Hin|].
  rewrite fmap_cons in Hnd. apply NoDup_cons in Hnd as [Hfresh Hnd].
  rewrite names_step_cons in Hfold. case_decide as Hr; [|done].
  apply elem_of_cons in Hin as [->|Hin]; [|by eapply IH].
  destruct (names_step_frame _ _ _ Hfold) as (_ & Hall & Hkeep).
  rewrite Hkeep.
  - apply list_lookup_insert_eq. lia.
  - intros kv' Hin Heq. apply Hfresh.
    rewrite Forall_forall in Hall. specialize (Hall kv' Hin).
    rewrite length_insert in Hall.
    assert (kv'.2 = kv.2) as <- by lia.
    apply list_elem_of_fmap. by exists kv'.
Qed.

(** A list of [n] distinct numbers below [n] holds every number below
    [n]. *)
Lemma NoDup_below_all (l : list nat) j :
  NoDup l → Forall (λ i, (i < length l)%nat) l → (j < length l)%nat → j ∈ l.
Proof.
  intros Hnd Hall Hj.
  assert (l ⊆+ seq 0 (length l)) as Hsub.
  { apply NoDup_submseteq; [done|]. intros i Hi. apply elem_of_seq.
    rewrite Forall_forall in Hall. specialize (Hall i Hi). lia. }
  apply submseteq_length_Permutation in Hsub; [|by rewrite length_seq].
  rewrite Hsub. apply elem_of_seq. lia.
Qed.

(** X8. The vector of nuclide names can be built exactly when every index
    of the nuclide map lies within [0, size of the map); otherwise a
    name is written outside the vector. When it is built it has one entry
    for each entry of the map. *)
Theorem build_nuclide_names_defined (nuclide_map : gmap string Z) :
  (is_Some (build_nuclide_names nuclide_map) ↔
   ∀ n i, nuclide_map !! n = Some i → 0 ≤ i < Z.of_nat (size nuclide_map)) ∧
  ∀ names, build_nuclide_names nuclide_map = Some names →
           length names = size nuclide_map.
Proof.
  unfold build_nuclide_names. split; [split|].
  - intros [names Hfold] n i Hn.
    destruct (names_step_frame _ _ _ Hfold) as (_ & Hall & _).
    rewrite length_replicate, Forall_forall in Hall.
    apply (Hall (n, i)). by apply elem_of_map_to_list.
  - intros Hrange. apply names_step_defined. apply Forall_forall.
    intros [n i] Hin%elem_of_map_to_list. rewrite length_replicate.
    by apply (Hrange n).
  - intros names Hfold.
    destruct (names_step_frame _ _ _ Hfold) as (Hlen & _ & _).
    by rewrite length_replicate in Hlen.
Qed.

(** When no two names of the map share an index, the vector that is built
    is the inverse of the map. *)
Lemma build_nuclide_names_inverse (nuclide_map : gmap string Z) names :
  (∀ n1 n2 i, nuclide_map !! n1 = Some i → nuclide_map !! n2 = Some i →
              n1 = n2) →
  build_nuclide_names nuclide_map = Some names →
  ∀ n i, nuclide_map !! n = Some i ↔ vec_at names i = Some n.
Proof.
  intros Hinj Hfold. unfold build_nuclide_names in Hfold.
  destruct (names_step_frame _ _ _ Hfold) as (Hlen & Hall & _).
  rewrite length_replicate in Hlen, Hall.
  assert (NoDup (map_to_list nuclide_map).*2) as Hnd.
  { apply NoDup_fmap_2_strong; [|apply NoDup_map_to_list].
    intros [n1 i1] [n2 i2] Hin1%elem_of_map_to_list Hin2%elem_of_map_to_list.
    simpl. intros ->. f_equal. by apply (Hinj n1 n2 i2). }
  pose proof (names_step_written _ _ _ Hnd Hfold) as Hwritten.
  assert (∀ n i, nuclide_map !! n = Some i → vec_at names i = Some n)
    as Hfwd.
  { intros n i Hn. apply vec_at_Some.
    rewrite Forall_forall in Hall.
    pose proof (Hall (n, i) (proj2 (elem_of_map_to_list _ _ _) Hn)) as Hr.
    split; [simpl in Hr; lia|].
    apply (Hwritten (n, i)). by apply elem_of_map_to_list. }
  intros n i. split; [apply Hfwd|].
  intros Hat. pose proof (vec_at_lt _ _ _ Hat) as Hr. rewrite Hlen in Hr.
  set (vs := Z.to_nat <$> (map_to_list nuclide_map).*2).
  assert (length vs = size nuclide_map) as Hvs
    by (unfold vs; by rewrite !length_fmap, length_map_to_list).
  assert (Z.to_nat i ∈ vs) as Hin.
  { apply NoDup_below_all.
    - unfold vs. apply NoDup_fmap_2_strong; [|done].
      intros i1 i2 Hi1 Hi2 Heq.
      apply list_elem_of_fmap in Hi1 as (kv1 & -> & Hkv1).
      apply list_elem_of_fmap in Hi2 as (kv2 & -> & Hkv2).
      rewrite Forall_forall in Hall.
      pose proof (Hall kv1 Hkv1). pose proof (Hall kv2 Hkv2). lia.
    - rewrite Hvs. unfold vs. rewrite Forall_fmap, Forall_fmap.
      eapply Forall_impl; [exact Hall|]. simpl. lia.
    - lia. }
  unfold vs in Hin.
  apply list_elem_of_fmap in Hin as (i' & Heq & Hin).
  apply list_elem_of_fmap in Hin as ([n' i''] & -> & Hin).
  rewrite Forall_forall in Hall. pose proof (Hall _ Hin) as Hr'.
  simpl in Heq, Hr'. assert (i'' = i) as -> by lia.
  apply elem_of_map_to_list in Hin.
  pose proof (Hfwd _ _ Hin) as Hat'. by simplify_eq.
Qed.

Lemma build_nuclide_names_NoDup (nuclide_map : gmap string Z) names :
  (∀ n1 n2 i, nuclide_map !! n1 = Some i → nuclide_map !! n2 = Some i →
              n1 = n2) →
  build_nuclide_names nuclide_map = Some names →
  NoDup names.
Proof.
  intros Hinj Hfold. apply NoDup_alt. intros j1 j2 n Hj1 Hj2.
  rewrite <- vec_at_of_nat in Hj1, Hj2.
  apply (build_nuclide_names_inverse _ _ Hinj Hfold) in Hj1, Hj2.
  rewrite Hj1 in Hj2. simplify_eq. lia.
Qed.

(** X9. When no two names of the nuclide map share an index, the vector
    of nuclide names is the inverse of the map: the name at position [i]
    is [n] exactly when the map sends [n] to [i]; so no name occurs
    twice in it. *)
Theorem build_nuclide_names_inverts_map (nuclide_map : gmap string Z) names :
  (∀ n1 n2 i, nuclide_map !! n1 = Some i → nuclide_map !! n2 = Some i →
              n1 = n2) →
  build_nuclide_names nuclide_map = Some names →
  (∀ n i, nuclide_map !! n = Some i ↔ vec_at names i = Some n) ∧
  NoDup names.
Proof.
  intros Hinj Hfold. split.
  - by apply build_nuclide_names_inverse.
  - by eapply build_nuclide_names_NoDup.
Qed.

(** ** Loads that return *)

(** X10. read_mgxs returns, with as many tables in the store as the
    materials use nuclides, when: the library file is there and passes
    the checks; the nuclide map numbers its names with distinct indices
    below its size; there is a temperature list for each; the store is
    empty; the materials, read in order, name the nuclides in the order
    of their indices; and the file has a dataset for every nuclide that
    a material lists. *)
Theorem read_mgxs_returns_on_valid_input (fs : gmap string (hdf5_file G))
    st file c :
  fs !! path_cross_sections st = Some file →
  attr_filetype file = "mgxs"%string →
  attr_version file = VERSION_MGXS_LIBRARY →
  (∀ n i, nuclide_map st !! n = Some i →
          0 ≤ i < Z.of_nat (size (nuclide_map st))) →
  (∀ n1 n2 i, nuclide_map st !! n1 = Some i → nuclide_map st !! n2 = Some i →
              n1 = n2) →
  (size (nuclide_map st) ≤ length (nuc_temps_of st))%nat →
  nuclides_MG st = [] →
  first_use_end 0 (concat (nuclide_ <$> materials st)) = Some c →
  (c ≤ size (nuclide_map st))%nat →
  (∀ k mat i n, materials st !! k = Some mat → i ∈ nuclide_ mat →
     nuclide_map st !! n = Some i → object_exists file n = true) →
  ∃ st', read_mgxs fs st = Returns tt st' ∧
         length (nuclides_MG st') = c.
Proof.
  intros Hfile Hty Hver Hrange Hinj Htemps Hempty Hend Hc Hall.
  destruct (names_step_defined (map_to_list (nuclide_map st))
              (replicate (size (nuclide_map st)) ""%string))
    as [names Hnames].
  { apply Forall_forall. intros [n i] Hin%elem_of_map_to_list.
    rewrite length_replicate. by apply (Hrange n). }
  change (build_nuclide_names (nuclide_map st) = Some names) in Hnames.
  pose proof (build_nuclide_names_NoDup _ _ Hinj Hnames) as Hnd.
  assert (length names = size (nuclide_map st)) as Hlen.
  { destruct (names_step_frame _ _ _ Hnames) as (Hlen & _ & _).
    by rewrite length_replicate in Hlen. }
  rewrite <- Hlen in Htemps, Hc.
  destruct (read_mgxs_loops_count file st names c Hempty Hnd Htemps Hend Hc)
    as [Hdef Hret].
  pose proof (read_mgxs_cases fs st) as Hcases.
  rewrite Hfile, Hnames, decide_True in Hcases by done.
  pose proof (load_inv_materials file names (nuc_temps_of st) st
    (seq 0 (length (materials st))) ∅ st (load_inv_init file st)) as Hloop.
  rewrite Hcases. unfold mbind, prog_bind. unfold wp in Hloop.
  destruct (for_each _ _ _ st) as [seen st1|msg1 st1|]; [| |done].
  - exists st1. split; [done|]. by destruct (Hret seen st1 eq_refl).
  - exfalso.
    destruct Hloop as (n & _ & k & mat & i & _ & Hex & Hmat & Hi & Hn & _).
    apply (build_nuclide_names_inverse _ _ Hinj Hnames) in Hn.
    by rewrite (Hall k mat i n) in Hex.
Qed.

(** ** Handles *)

Lemma query_fissionable_c_loop (i_nuclides : list Z) ns : ∀ st result,
  for_each ns
    (λ n result,
       st ← get_globals;
       i ← defined (vec_at i_nuclides n);
       j ← defined (int_pred i);
       nuc ← defined (vec_at (nuclides_MG st) j);
       mret (if fissionable nuc then true else result)) result st =
  match mapM (λ n, i ← vec_at i_nuclides n; j ← int_pred i;
                   vec_at (nuclides_MG st) j) ns with
  | Some tables => Returns (existsb fissionable tables || result) st
  | None => Undefined
  end.
Proof.
  induction ns as [|n ns IH]; intros st result; [done|].
  cbn [for_each mapM].
  cbv beta iota delta [mbind prog_bind get_globals].
  destruct (vec_at i_nuclides n) as [i|]; [|done]. simpl.
  destruct (int_pred i) as [j|]; [|done]. simpl.
  destruct (vec_at (nuclides_MG st) j) as [nuc|]; [|done]. simpl.
  rewrite IH. unfold mbind, option_bind.
  destruct (mapM _ ns) as [tables|]; [|done]. simpl. f_equal.
  destruct (fissionable nuc); simpl; [by rewrite orb_true_r|done].
Qed.

(** The handles of the nuclides [l] name the tables at the positions
    [l]. *)
Lemma handle_tables_handles_of (store : list Mgxs) (l : list Z) :
  handle_tables store (handles_of l) (Z.of_nat (length l)) =
  mapM (vec_at store) l.
Proof.
  unfold handle_tables, handles_of. apply option_eq. intros tables.
  rewrite !mapM_Some. rewrite !Forall2_same_length_lookup.
  rewrite length_seqZ, Nat2Z.id.
  split; intros [Hlen Hall]; (split; [done|]).
  - intros j i nuc Hi Hnuc.
    assert (seqZ 0 (Z.of_nat (length l)) !! j = Some (Z.of_nat j)) as Hj.
    { apply lookup_seqZ. apply lookup_lt_Some in Hi. lia. }
    specialize (Hall j _ nuc Hj Hnuc). simpl in Hall.
    rewrite vec_at_of_nat, list_lookup_fmap, Hi in Hall. simpl in Hall.
    unfold int_pred in Hall. case_decide; [|done]. simpl in Hall.
    by replace (i + 1 - 1) with i in Hall by lia.
  - intros j n nuc Hn Hnuc. apply lookup_seqZ in Hn as [-> Hn].
    destruct (lookup_lt_is_Some_2 l j) as [i Hi]; [lia|].
    specialize (Hall j i nuc Hi Hnuc). simpl.
    rewrite Z.add_0_l, vec_at_of_nat, list_lookup_fmap, Hi. simpl.
    pose proof (vec_at_lt _ _ _ Hall) as Hr.
    rewrite int_pred_Some by (unfold INT_MIN; lia). simpl.
    by replace (i + 1 - 1) with i by lia.
Qed.

(** X11. query_fissionable_c answers whether one of the tables that the
    first [n_nuclides] handles name is fissionable, and changes no data;
    it never ends in a fatal error, and its behaviour is undefined
    exactly when one of those handles is missing from the array or names
    no table of the store.  With [n_nuclides] zero or negative the answer
    is false and nothing is read. *)
Theorem query_fissionable_c_answer (n_nuclides : Z) (i_nuclides : list Z) st :
  query_fissionable_c n_nuclides i_nuclides st =
  match handle_tables (nuclides_MG st) i_nuclides n_nuclides with
  | Some tables => Returns (existsb fissionable tables) st
  | None => Undefined
  end ∧
  (n_nuclides ≤ 0 →
   query_fissionable_c n_nuclides i_nuclides st = Returns false st).
Proof.
  assert (query_fissionable_c n_nuclides i_nuclides st =
          match handle_tables (nuclides_MG st) i_nuclides n_nuclides with
          | Some tables => Returns (existsb fissionable tables) st
          | None => Undefined
          end) as Hrun.
  { unfold query_fissionable_c, handle_tables.
    rewrite query_fissionable_c_loop.
    destruct (mapM _ _); [|done]. by rewrite orb_false_r. }
  split; [done|]. intros Hn. rewrite Hrun. unfold handle_tables.
  by rewrite seqZ_nil by lia.
Qed.

(** After a load from an empty store, the tables of the nuclides of each
    material are in the store at the indices of the nuclides, and the
    flag of the material has been raised if one of them is fissionable. *)
Lemma read_mgxs_loaded_state (fs : gmap string (hdf5_file G)) st st' file
    names k mat :
  fs !! path_cross_sections st = Some file →
  build_nuclide_names (nuclide_map st) = Some names →
  nuclides_MG st = [] →
  read_mgxs fs st = Returns tt st' →
  materials st !! k = Some mat →
  (∃ tables,
     mapM (vec_at (nuclides_MG st')) (nuclide_ mat) = Some tables ∧
     Forall2 (λ i nuc, nuclide_table file names (nuc_temps_of st) i = Some nuc)
       (nuclide_ mat) tables) ∧
  materials st' !! k =
  Some (flag_if (existsb (nuclide_fissionable file names (nuc_temps_of st))
                   (nuclide_ mat)) mat).
Proof.
  intros Hfile Hnames Hempty Hrun Hmat.
  pose proof (read_mgxs_cases fs st) as Hcases.
  rewrite Hfile, Hnames in Hcases.
  case_decide; [|destruct Hcases as [msg Hcases]; congruence].
  rewrite Hrun in Hcases. symmetry in Hcases.
  unfold mbind, prog_bind in Hcases.
  pose proof (table_inv_materials file names (nuc_temps_of st) st
    (seq 0 (length (materials st))) (NoDup_seq _ _)) as Hloop.
  unfold wp in Hloop.
  destruct (for_each _ _ _ st) as [seen st1|msg1 st1|]; [|done..].
  injection Hcases as <-.
  destruct Hloop as [Hnucs Hmats].
  { intros j nuc Hj. by rewrite Hempty in Hj. }
  assert (k ∈ seq 0 (length (materials st))) as Hk.
  { apply elem_of_seq. apply lookup_lt_Some in Hmat. lia. }
  split.
  - specialize (Hnucs k mat Hk Hmat).
    induction (nuclide_ mat) as [|i l IH]; [by exists []|].
    destruct IH as (tables & Hmap & Hall);
      [intros i' Hi'; apply Hnucs; by right|].
    destruct (Hnucs i) as (nuc & Htab & Hat); [by left|].
    exists (nuc :: tables). split; [|by constructor].
    cbn [mapM]. rewrite Hat. simpl. by rewrite Hmap.
  - rewrite (Hmats k mat Hmat).
    by rewrite bool_decide_eq_true_2 by done.
Qed.

Lemma existsb_tables (file : hdf5_file G) names temps l tables :
  Forall2 (λ i nuc, nuclide_table file names temps i = Some nuc) l tables →
  existsb fissionable tables =
  existsb (nuclide_fissionable file names temps) l.
Proof.
  induction 1 as [|i nuc l tables Htab _ IH]; [done|]. simpl.
  unfold nuclide_fissionable at 1. by rewrite Htab, IH.
Qed.

(** X12. After read_mgxs has returned from an empty store, asking
    query_fissionable_c about the handles of a material's nuclides gives
    the flag that the load has left on the material, if the flag was
    clear before the load; the query changes nothing. *)
Theorem query_fissionable_c_agrees_with_flag
    (fs : gmap string (hdf5_file G)) st st' file names k mat :
  fs !! path_cross_sections st = Some file →
  build_nuclide_names (nuclide_map st) = Some names →
  nuclides_MG st = [] →
  read_mgxs fs st = Returns tt st' →
  materials st !! k = Some mat →
  fissionable_ mat = false →
  ∃ mat',
    materials st' !! k = Some mat' ∧
    query_fissionable_c (Z.of_nat (length (nuclide_ mat)))
      (handles_of (nuclide_ mat)) st' =
    Returns (fissionable_ mat') st'.
Proof.
  intros Hfile Hnames Hempty Hrun Hmat Hflag.
  destruct (read_mgxs_loaded_state fs st st' file names k mat
              Hfile Hnames Hempty Hrun Hmat)
    as [(tables & Hmap & Hall) Hmat'].
  eexists. split; [exact Hmat'|].
  unfold query_fissionable_c. rewrite query_fissionable_c_loop.
  change (mapM _ (seqZ 0 ?n))
    with (handle_tables (nuclides_MG st') (handles_of (nuclide_ mat)) n).
  rewrite handle_tables_handles_of, Hmap, orb_false_r.
  rewrite (existsb_tables _ _ _ _ _ Hall).
  destruct (existsb _ _); simpl; [done|by rewrite Hflag].
Qed.

(** X13. After read_mgxs has returned from an empty store, a call of
    create_macro_xs_c with a positive number of temperatures, arrays that
    hold what the counts announce and the handles of a material's
    nuclides appends the macroscopic table built from the tables that
    the load instantiated for these nuclides, in the order of the
    material's list. *)
Theorem create_macro_xs_c_after_load
    (fs : gmap string (hdf5_file G)) st st' file names k mat
    mat_name n_temps temps atom_densities tolerance method :
  fs !! path_cross_sections st = Some file →
  build_nuclide_names (nuclide_map st) = Some names →
  nuclides_MG st = [] →
  read_mgxs fs st = Returns tt st' →
  materials st !! k = Some mat →
  0 < n_temps ≤ Z.of_nat (length temps) →
  (length (nuclide_ mat) ≤ length atom_densities)%nat →
  ∃ tables,
    Forall2 (λ i nuc, nuclide_table file names (nuc_temps_of st) i = Some nuc)
      (nuclide_ mat) tables ∧
    create_macro_xs_c mat_name (Z.of_nat (length (nuclide_ mat)))
      (handles_of (nuclide_ mat)) n_temps temps atom_densities tolerance
      method st' =
    Returns tt
      (set_macro_xs
         (macro_xs st' ++
          [Mgxs_macro mat_name (take (Z.to_nat n_temps) temps) tables
             (take (length (nuclide_ mat)) atom_densities)]) st').
Proof.
  intros Hfile Hnames Hempty Hrun Hmat Htemps Hdens.
  destruct (read_mgxs_loaded_state fs st st' file names k mat
              Hfile Hnames Hempty Hrun Hmat)
    as [(tables & Hmap & Hall) _].
  exists tables. split; [done|].
  pose proof (create_macro_xs_c_spec
                (Mk_macro_args mat_name (Z.of_nat (length (nuclide_ mat)))
                   (handles_of (nuclide_ mat)) n_temps temps atom_densities
                   tolerance method) st') as Hspec.
  unfold call_create_macro_xs_c in Hspec. simpl in Hspec. rewrite Hspec.
  unfold macro_entry. simpl. rewrite decide_True by lia.
  unfold array_prefix. rewrite !decide_True by lia. simpl.
  change (mapM _ (seqZ 0 ?n))
    with (handle_tables (nuclides_MG st') (handles_of (nuclide_ mat)) n).
  rewrite handle_tables_handles_of, Hmap. simpl. by rewrite Nat2Z.id.
Qed.

(** ** Names and weights *)

Lemma strlen_app_NUL (s t : list ascii) :
  NUL ∉ s → strlen (s ++ NUL :: t) = Some (length s).
Proof.
  induction s as [|c s IH]; intros Hs; cbn [strlen app].
  - by rewrite decide_True.
  - apply not_elem_of_cons in Hs as [Hc Hs].
    rewrite decide_False by done. by rewrite IH.
Qed.

Lemma strcpy_fits (dest s : list ascii) :
  NUL ∉ s → (length s < length dest)%nat →
  strcpy dest (s ++ [NUL]) = Some (s ++ NUL :: drop (S (length s)) dest).
Proof.
  intros Hs Hlen. unfold strcpy. rewrite strlen_app_NUL by done. simpl.
  rewrite decide_True by lia.
  rewrite take_ge by (rewrite length_app; simpl; lia).
  by rewrite <- app_assoc.
Qed.

Lemma strcpy_overflows (dest s : list ascii) :
  NUL ∉ s → (length dest ≤ length s)%nat → strcpy dest (s ++ [NUL]) = None.
Proof.
  intros Hs Hlen. unfold strcpy. rewrite strlen_app_NUL by done. simpl.
  by rewrite decide_False by lia.
Qed.

Lemma c_str_string_fill count c :
  c_str (string_fill count c) = replicate count c ++ [NUL].
Proof.
  unfold c_str, string_fill.
  by rewrite String.list_ascii_of_string_of_list_ascii.
Qed.

Lemma NUL_not_blank count : NUL ∉ replicate count " "%char.
Proof. by intros [? _]%elem_of_replicate. Qed.

(** get_name_c past the construction of the blank string. *)
Lemma get_name_c_unfold st index name_len (name_buf : list ascii) :
  0 < name_len →
  get_name_c st index name_len name_buf =
  match
    name_buf ← strcpy name_buf
                 (replicate (Z.to_nat name_len - 1) " "%char ++ [NUL]);
    nuc ← vec_at (nuclides_MG st) (index - 1);
    name_buf ← strcpy name_buf
                 (String.list_ascii_of_string (name nuc) ++ [NUL]);
    k ← strlen name_buf;
    Some (<[k := " "%char]> name_buf)
  with
  | Some name_buf => Done name_buf
  | None => UB
  end.
Proof.
  intros Hlen. unfold get_name_c.
  rewrite (int_pred_Some name_len) by (unfold INT_MIN; lia).
  cbv beta iota zeta. rewrite decide_False by lia.
  rewrite c_str_string_fill.
  replace (Z.to_nat (name_len - 1)) with (Z.to_nat name_len - 1)%nat by lia.
  destruct (strcpy name_buf _) as [blanked|]; [|done].
  cbn [mbind option_bind].
  unfold int_pred. case_decide as Hindex; [done|].
  cbn [mbind option_bind]. unfold vec_at.
  by rewrite decide_False by (unfold INT_MIN in Hindex; lia).
Qed.

(** The array after a call whose copies stay inside it. *)
Lemma get_name_c_done_long st index name_len (name_buf : list ascii) nuc :
  vec_at (nuclides_MG st) (index - 1) = Some nuc →
  let s := String.list_ascii_of_string (name nuc) in
  let n := Z.to_nat name_len in
  NUL ∉ s →
  (0 < n ≤ length name_buf)%nat →
  (length s < length name_buf)%nat →
  get_name_c st index name_len name_buf =
  Done (s ++ " "%char ::
        drop (S (length s))
          (replicate (n - 1) " "%char ++ NUL :: drop n name_buf)).
Proof.
  intros Hnuc s n Hs Hlen Hfits.
  rewrite get_name_c_unfold by lia. fold n.
  rewrite strcpy_fits
    by (apply NUL_not_blank || (rewrite length_replicate; lia)).
  cbn [mbind option_bind]. rewrite Hnuc. cbn [mbind option_bind].
  fold s. rewrite length_replicate.
  replace (S (n - 1)) with n by lia.
  set (blanked := replicate (n - 1) " "%char ++ NUL :: drop n name_buf).
  assert (length blanked = length name_buf) as Hblanked.
  { unfold blanked. rewrite length_app, length_replicate. simpl.
    rewrite length_drop. lia. }
  rewrite strcpy_fits by (done || lia). cbn [mbind option_bind].
  rewrite strlen_app_NUL by done. cbn [mbind option_bind]. f_equal.
  by rewrite insert_app_r_alt, Nat.sub_diag by done.
Qed.

Lemma get_name_c_done st index name_len (name_buf : list ascii) nuc :
  vec_at (nuclides_MG st) (index - 1) = Some nuc →
  let s := String.list_ascii_of_string (name nuc) in
  let n := Z.to_nat name_len in
  NUL ∉ s →
  (length s < n ≤ length name_buf)%nat →
  get_name_c st index name_len name_buf =
  Done (s ++ replicate (n - 1 - length s) " "%char ++
        (if decide (length s = n - 1)%nat then " "%char else NUL)
        :: drop n name_buf).
Proof.
  intros Hnuc s n Hs Hlen.
  rewrite (get_name_c_done_long st index name_len name_buf nuc Hnuc Hs)
    by (unfold s, n in *; lia).
  fold s n. f_equal. f_equal. case_decide as Hfull.
  - replace (n - 1 - length s)%nat with 0%nat by lia. simpl.
    rewrite drop_app_ge by (rewrite length_replicate; lia).
    rewrite length_replicate.
    by replace (S (length s) - (n - 1))%nat with 1%nat by lia.
  - rewrite drop_app_le by (rewrite length_replicate; lia).
    rewrite drop_replicate.
    replace (n - 1 - length s)%nat with (S (n - 1 - S (length s))) by lia.
    done.
Qed.

(** X14. get_name_c, called with the handle of a table whose name has
    fewer than [name_len] characters and with an array of at least
    [name_len] characters, leaves in the array the name followed by
    blanks up to position [name_len - 2] and, at position
    [name_len - 1], the terminator that the blanking wrote; only when the
    name has exactly [name_len - 1] characters is that position a blank
    too.  The array beyond [name_len] is not touched. *)
Theorem get_name_c_pads_name st index name_len (name_buf : list ascii) nuc :
  vec_at (nuclides_MG st) (index - 1) = Some nuc →
  let s := String.list_ascii_of_string (name nuc) in
  let n := Z.to_nat name_len in
  NUL ∉ s →
  (length s < n ≤ length name_buf)%nat →
  get_name_c st index name_len name_buf =
  Done (s ++ replicate (n - 1 - length s) " "%char ++
        (if decide (length s = n - 1)%nat then " "%char else NUL)
        :: drop n name_buf).
Proof. apply get_name_c_done. Qed.

(** X15. A length that is zero or negative makes get_name_c throw
    [std::length_error] from the construction of the blank string,
    before the handle or the array is looked at. *)
Theorem get_name_c_length_error st index name_len (name_buf : list ascii) :
  INT_MIN < name_len ≤ 0 →
  get_name_c st index name_len name_buf = Throws "std::length_error".
Proof.
  intros Hlen. unfold get_name_c. rewrite int_pred_Some by lia.
  cbv beta iota zeta. by rewrite decide_True by lia.
Qed.

(** X16. With a positive length and names that hold no NUL, the
    behaviour of get_name_c is undefined in exactly three cases: the
    array has fewer than [name_len] characters; the handle names no
    table; the name does not fit in the array with its terminator.  A
    name of [name_len] characters or more that still fits in the array
    is written beyond position [name_len - 1]. *)
Theorem get_name_c_undefined_cases st index name_len
    (name_buf : list ascii) :
  0 < name_len →
  (∀ nuc, vec_at (nuclides_MG st) (index - 1) = Some nuc →
          NUL ∉ String.list_ascii_of_string (name nuc)) →
  (get_name_c st index name_len name_buf = UB ↔
   Z.of_nat (length name_buf) < name_len ∨
   match vec_at (nuclides_MG st) (index - 1) with
   | None => True
   | Some nuc =>
       (length name_buf ≤
        length (String.list_ascii_of_string (name nuc)))%nat
   end) ∧
  ∀ nuc, vec_at (nuclides_MG st) (index - 1) = Some nuc →
    let s := String.list_ascii_of_string (name nuc) in
    (Z.to_nat name_len ≤ length s < length name_buf)%nat →
    get_name_c st index name_len name_buf =
    Done (s ++ " "%char :: drop (S (length s)) name_buf).
Proof.
  intros Hlen Hnames. split.
  - destruct (decide (Z.of_nat (length name_buf) < name_len)) as [Hshort|Hbuf].
    + split; [by left|]. intros _. rewrite get_name_c_unfold by done.
      rewrite strcpy_overflows;
        [done|apply NUL_not_blank|rewrite length_replicate; lia].
    + destruct (vec_at (nuclides_MG st) (index - 1)) as [nuc|] eqn:Hnuc.
      * destruct (decide (length name_buf ≤
                          length (String.list_ascii_of_string (name nuc)))%nat)
          as [Hlong|Hfits].
        -- split; [by right|]. intros _. rewrite get_name_c_unfold by done.
           rewrite strcpy_fits
             by (apply NUL_not_blank || (rewrite length_replicate; lia)).
           cbn [mbind option_bind]. rewrite Hnuc. cbn [mbind option_bind].
           rewrite strcpy_overflows; [done|by apply Hnames|].
           rewrite length_app, length_replicate. simpl. rewrite length_drop.
           lia.
        -- rewrite (get_name_c_done_long st index name_len name_buf nuc Hnuc)
             by (by apply Hnames || lia).
           split; [done|]. intros [?|?]; lia.
      * split; [by right|]. intros _. rewrite get_name_c_unfold by done.
        destruct (strcpy name_buf _); [|done].
        cbn [mbind option_bind]. by rewrite Hnuc.
  - intros nuc Hnuc s Hlong. unfold s in *. clear s.
    rewrite (get_name_c_done_long st index name_len name_buf nuc Hnuc)
      by (by apply Hnames || lia).
    f_equal. f_equal. f_equal.
    rewrite drop_app_ge by (rewrite length_replicate; lia).
    rewrite length_replicate.
    set (s := String.list_ascii_of_string (name nuc)) in *.
    replace (S (length s) - (Z.to_nat name_len - 1))%nat
      with (S (S (length s) - Z.to_nat name_len)) by lia.
    simpl. rewrite drop_drop. f_equal. lia.
Qed.

(** X17. After read_mgxs has returned from an empty store, the handle
    [i + 1] of a nuclide [i] that a material lists gives, through
    get_awr_c and get_name_c, the weight and the name of the table built
    from the dataset of the nuclide's name: the array holds the name from
    the nuclide map, padded as get_name_c pads. *)
Theorem general_methods_after_load
    (fs : gmap string (hdf5_file G)) st st' file names k mat i_nuc n
    name_len (name_buf : list ascii) :
  (∀ n g t, name (Mgxs_from_hdf5 n g t) = n) →
  fs !! path_cross_sections st = Some file →
  build_nuclide_names (nuclide_map st) = Some names →
  nuclides_MG st = [] →
  read_mgxs fs st = Returns tt st' →
  materials st !! k = Some mat → i_nuc ∈ nuclide_ mat →
  vec_at names i_nuc = Some n →
  let s := String.list_ascii_of_string n in
  let len := Z.to_nat name_len in
  NUL ∉ s → (length s < len ≤ length name_buf)%nat →
  ∃ nuc,
    nuclide_table file names (nuc_temps_of st) i_nuc = Some nuc ∧
    get_awr_c st' (i_nuc + 1) = Some (awr nuc) ∧
    get_name_c st' (i_nuc + 1) name_len name_buf =
    Done (s ++ replicate (len - 1 - length s) " "%char ++
          (if decide (length s = len - 1)%nat then " "%char else NUL)
          :: drop len name_buf).
Proof.
  intros Hname Hfile Hnames Hempty Hrun Hmat Hi Hn s len Hs Hlen.
  destruct (read_mgxs_loaded_state fs st st' file names k mat
              Hfile Hnames Hempty Hrun Hmat)
    as [(tables & Hmap & Hall) _].
  apply mapM_Some in Hmap.
  apply list_elem_of_lookup in Hi as [j Hj].
  destruct (Forall2_lookup_l _ _ _ _ _ Hmap Hj) as (nuc & Hnuc & Hat).
  destruct (Forall2_lookup_l _ _ _ _ _ Hall Hj) as (nuc' & Hnuc' & Htab).
  assert (nuc' = nuc) as -> by congruence.
  pose proof Htab as Htab'. unfold nuclide_table in Htab'.
  rewrite Hn in Htab'. simpl in Htab'.
  destruct (open_group file n) as [g|]; [|done]. simpl in Htab'.
  destruct (vec_at (nuc_temps_of st) i_nuc) as [t|]; [|done].
  simpl in Htab'. simplify_eq.
  exists (Mgxs_from_hdf5 n g t). split_and!; [done| |].
  - unfold get_awr_c. pose proof (vec_at_lt _ _ _ Hat).
    rewrite int_pred_Some by (unfold INT_MIN; lia). simpl.
    replace (i_nuc + 1 - 1) with i_nuc by lia. by rewrite Hat.
  - assert (vec_at (nuclides_MG st') (i_nuc + 1 - 1) =
            Some (Mgxs_from_hdf5 n g t)) as Hat'
      by (by replace (i_nuc + 1 - 1) with i_nuc by lia).
    pose proof (get_name_c_done st' (i_nuc + 1) name_len name_buf _ Hat')
      as Hdone.
    rewrite Hname in Hdone. by apply Hdone.
Qed.

(** ** Arguments that the lookups and the setters need *)

Lemma lookup_frame_defined gout dg mem :
  (∀ p, dg = Some p → is_Some (mem !! p)) →
  is_Some (lookup_frame gout dg mem) →
  arg_ok mem gout = true ∧ arg_ok mem dg = true.
Proof.
  intros Hdg. unfold lookup_frame.
  destruct (fresh_locals mem) as (Hg & Hd & Hne).
  set (gout_c := fresh (dom mem)) in *.
  set (dg_c := fresh ({[gout_c]} ∪ dom mem)) in *.
  assert (∀ v, is_Some (int_pred v) → bool_decide (INT_MIN < v) = true)
    as Hpred.
  { intros v [c Hc]. unfold int_pred in Hc. case_decide; [|done].
    by apply bool_decide_eq_true_2. }
  destruct gout as [p|]; simpl.
  - destruct (mem !! p) as [v|] eqn:Hp; simpl; [|by intros [? ?]].
    destruct (int_pred v) as [c|] eqn:Hc; simpl; [|by intros [? ?]].
    rewrite (Hpred v) by (by rewrite Hc).
    destruct dg as [q|]; simpl; [|done].
    destruct (Hdg q eq_refl) as [w Hq].
    assert (q ≠ gout_c) by congruence.
    rewrite lookup_insert_ne by done. rewrite Hq. simpl.
    destruct (int_pred w) as [d|] eqn:Hd'; simpl; [|by intros [? ?]].
    by rewrite (Hpred w) by (by rewrite Hd').
  - destruct dg as [q|]; simpl; [|done].
    destruct (Hdg q eq_refl) as [w Hq]. rewrite Hq. simpl.
    destruct (int_pred w) as [d|] eqn:Hd'; simpl; [|by intros [? ?]].
    by rewrite (Hpred w) by (by rewrite Hd').
Qed.

Lemma lookup_body_defined {A} (store : list Mgxs) index gin gout dg mem
    (k : option addr * option addr * int_mem → Mgxs → Z → A) :
  (∀ p, dg = Some p → is_Some (mem !! p)) →
  is_Some ('(gout_c_p, dg_c_p, mem_c) ← lookup_frame gout dg mem;
           i ← int_pred index;
           nuc ← vec_at store i;
           g ← int_pred gin;
           Some (k (gout_c_p, dg_c_p, mem_c) nuc g)) ↔
  1 ≤ index ≤ Z.of_nat (length store) ∧ INT_MIN < gin ∧
  arg_ok mem gout = true ∧ arg_ok mem dg = true.
Proof.
  intros Hdg. split.
  - intros Hsome.
    destruct (lookup_frame gout dg mem) as [[[gp dp] mem_c]|] eqn:Hframe;
      [|by destruct Hsome].
    simpl in Hsome.
    destruct (lookup_frame_defined gout dg mem Hdg) as [Hg Hd];
      [by rewrite Hframe|].
    unfold int_pred in Hsome.
    destruct (decide (INT_MIN < index)); [|by destruct Hsome].
    simpl in Hsome.
    destruct (vec_at store (index - 1)) as [nuc|] eqn:Hnuc;
      [|by destruct Hsome].
    simpl in Hsome. apply vec_at_lt in Hnuc.
    destruct (decide (INT_MIN < gin)); [|by destruct Hsome].
    split_and!; [lia..|done|done|done].
  - intros (Hindex & Hgin & Hg & Hd).
    destruct (lookup_frame_spec gout dg mem Hg Hd)
      as (gp & dp & mem_c & -> & _).
    simpl. rewrite !int_pred_Some by (unfold INT_MIN in *; lia). simpl.
    destruct (lookup_lt_is_Some_2 store (Z.to_nat (index - 1))) as [nuc Hnuc];
      [lia|].
    unfold vec_at. rewrite decide_True by lia. rewrite Hnuc. by eexists.
Qed.

(** X18. When [dg] is null or points to an [int] of the caller, a lookup
    has defined behaviour exactly when the handle is between 1 and the
    number of tables, the incoming group is not [INT_MIN], and each of
    [gout] and [dg] is null or points to an [int] other than
    [INT_MIN]. *)
Theorem lookups_defined_iff st index xstype gin gout mu dg mem :
  (∀ p, dg = Some p → is_Some (mem !! p)) →
  (is_Some (get_nuclide_xs_c st index xstype gin gout mu dg mem) ↔
   1 ≤ index ≤ Z.of_nat (length (nuclides_MG st)) ∧ INT_MIN < gin ∧
   arg_ok mem gout = true ∧ arg_ok mem dg = true) ∧
  (is_Some (get_macro_xs_c st index xstype gin gout mu dg mem) ↔
   1 ≤ index ≤ Z.of_nat (length (macro_xs st)) ∧ INT_MIN < gin ∧
   arg_ok mem gout = true ∧ arg_ok mem dg = true).
Proof.
  intros Hdg. split.
  - rewrite get_nuclide_xs_c_unfold.
    apply (lookup_body_defined (nuclides_MG st) index gin gout dg mem
             (λ f nuc g,
                ((get_xs nuc xstype g f.1.1 mu f.1.2 f.2).1,
                 delete (fresh ({[fresh (dom mem)]} ∪ dom mem))
                   (delete (fresh (dom mem))
                      (get_xs nuc xstype g f.1.1 mu f.1.2 f.2).2))) Hdg).
  - rewrite get_macro_xs_c_unfold.
    apply (lookup_body_defined (macro_xs st) index gin gout dg mem
             (λ f nuc g,
                ((get_xs nuc xstype g f.1.1 mu f.1.2 f.2).1,
                 delete (fresh ({[fresh (dom mem)]} ∪ dom mem))
                   (delete (fresh (dom mem))
                      (get_xs nuc xstype g f.1.1 mu f.1.2 f.2).2))) Hdg).
Qed.

Lemma only_table_changed_insert (store : list Mgxs) j nuc :
  only_table_changed store (<[j := nuc]> store) j.
Proof.
  split; [by rewrite length_insert|].
  intros j' Hj'. by rewrite list_lookup_insert_ne.
Qed.

Lemma set_nuclides_MG_undo st store :
  set_nuclides_MG (nuclides_MG st) (set_nuclides_MG store st) = st.
Proof. by destruct st. Qed.

Lemma set_macro_xs_undo st store :
  set_macro_xs (macro_xs st) (set_macro_xs store st) = st.
Proof. by destruct st. Qed.

Lemma handle_in_range {A} (store : list A) index :
  match int_pred index ≫= vec_at store with
  | Some _ => 1 ≤ index ≤ Z.of_nat (length store)
  | None => ¬ 1 ≤ index ≤ Z.of_nat (length store)
  end.
Proof.
  unfold int_pred. case_decide as Hindex; simpl.
  - destruct (vec_at store (index - 1)) eqn:Hat.
    + apply vec_at_lt in Hat. lia.
    + unfold vec_at in Hat. case_decide; [|lia].
      apply lookup_ge_None in Hat. lia.
  - unfold INT_MIN in Hindex. lia.
Qed.

(** X19. Each of the three setters changes the table that its handle
    names, in its own store, and nothing else: the store keeps its
    length and its other tables, and all other data are as before.  A
    setter never ends in a fatal error, and its behaviour is undefined
    exactly when the handle is not between 1 and the number of tables. *)
Theorem setters_touch_one_table st index uvw sqrtkT :
  match set_nuclide_angle_index_c index uvw st with
  | Returns _ st' =>
      1 ≤ index ≤ Z.of_nat (length (nuclides_MG st)) ∧
      only_table_changed (nuclides_MG st) (nuclides_MG st')
        (Z.to_nat (index - 1)) ∧
      nuclides_MG st' !! Z.to_nat (index - 1) =
      (λ nuc, set_angle_index nuc uvw) <$>
        nuclides_MG st !! Z.to_nat (index - 1) ∧
      set_nuclides_MG (nuclides_MG st) st' = st
  | FatalError _ _ => False
  | Undefined => ¬ 1 ≤ index ≤ Z.of_nat (length (nuclides_MG st))
  end ∧
  match set_nuclide_temperature_index_c index sqrtkT st with
  | Returns _ st' =>
      1 ≤ index ≤ Z.of_nat (length (nuclides_MG st)) ∧
      only_table_changed (nuclides_MG st) (nuclides_MG st')
        (Z.to_nat (index - 1)) ∧
      nuclides_MG st' !! Z.to_nat (index - 1) =
      (λ nuc, set_temperature_index nuc sqrtkT) <$>
        nuclides_MG st !! Z.to_nat (index - 1) ∧
      set_nuclides_MG (nuclides_MG st) st' = st
  | FatalError _ _ => False
  | Undefined => ¬ 1 ≤ index ≤ Z.of_nat (length (nuclides_MG st))
  end ∧
  match set_macro_angle_index_c index uvw st with
  | Returns _ st' =>
      1 ≤ index ≤ Z.of_nat (length (macro_xs st)) ∧
      only_table_changed (macro_xs st) (macro_xs st') (Z.to_nat (index - 1)) ∧
      macro_xs st' !! Z.to_nat (index - 1) =
      (λ mat, set_angle_index mat uvw) <$>
        macro_xs st !! Z.to_nat (index - 1) ∧
      set_macro_xs (macro_xs st) st' = st
  | FatalError _ _ => False
  | Undefined => ¬ 1 ≤ index ≤ Z.of_nat (length (macro_xs st))
  end.
Proof.
  split_and!.
  - unfold set_nuclide_angle_index_c.
    cbv beta iota delta [mbind prog_bind get_globals defined modify].
    pose proof (handle_in_range (nuclides_MG st) index) as Hrange.
    destruct (int_pred index) as [j|] eqn:Hj; simpl in Hrange |- *;
      [|exact Hrange].
    destruct (vec_at (nuclides_MG st) j) as [nuc|] eqn:Hnuc; simpl;
      [|exact Hrange].
    unfold int_pred in Hj. case_decide; [|done]. simplify_eq.
    apply vec_at_Some in Hnuc as [_ Hnuc].
    split_and!; [lia..|apply only_table_changed_insert| |].
    + simpl. rewrite Hnuc. simpl. apply list_lookup_insert_eq.
      by apply lookup_lt_Some in Hnuc.
    + apply set_nuclides_MG_undo.
  - unfold set_nuclide_temperature_index_c.
    cbv beta iota delta [mbind prog_bind get_globals defined modify].
    pose proof (handle_in_range (nuclides_MG st) index) as Hrange.
    destruct (int_pred index) as [j|] eqn:Hj; simpl in Hrange |- *;
      [|exact Hrange].
    destruct (vec_at (nuclides_MG st) j) as [nuc|] eqn:Hnuc; simpl;
      [|exact Hrange].
    unfold int_pred in Hj. case_decide; [|done]. simplify_eq.
    apply vec_at_Some in Hnuc as [_ Hnuc].
    split_and!; [lia..|apply only_table_changed_insert| |].
    + simpl. rewrite Hnuc. simpl. apply list_lookup_insert_eq.
      by apply lookup_lt_Some in Hnuc.
    + apply set_nuclides_MG_undo.
  - unfold set_macro_angle_index_c.
    cbv beta iota delta [mbind prog_bind get_globals defined modify].
    pose proof (handle_in_range (macro_xs st) index) as Hrange.
    destruct (int_pred index) as [j|] eqn:Hj; simpl in Hrange |- *;
      [|exact Hrange].
    destruct (vec_at (macro_xs st) j) as [nuc|] eqn:Hnuc; simpl;
      [|exact Hrange].
    unfold int_pred in Hj. case_decide; [|done]. simplify_eq.
    apply vec_at_Some in Hnuc as [_ Hnuc].
    split_and!; [lia..|apply only_table_changed_insert| |].
    + simpl. rewrite Hnuc. simpl. apply list_lookup_insert_eq.
      by apply lookup_lt_Some in Hnuc.
    + apply set_macro_xs_undo.
Qed.

(** X20. calculate_xs_c hands calculate_xs the table of the 1-based
    handle and the incoming group minus one, returns the three cross
    sections that it computes and stores the table it leaves at the same
    place; no other table and no other data change.  It never ends in a
    fatal error, and its behaviour is undefined exactly when the handle
    is not between 1 and the number of tables or the group is
    [INT_MIN]. *)
Theorem calculate_xs_c_outcome st i_mat gin sqrtkT uvw :
  match calculate_xs_c i_mat gin sqrtkT uvw st with
  | Returns xs st' =>
      ∃ mat,
        vec_at (macro_xs st) (i_mat - 1) = Some mat ∧ INT_MIN < gin ∧
        xs = (calculate_xs mat (gin - 1) sqrtkT uvw).2 ∧
        macro_xs st' !! Z.to_nat (i_mat - 1) =
        Some (calculate_xs mat (gin - 1) sqrtkT uvw).1 ∧
        only_table_changed (macro_xs st) (macro_xs st')
          (Z.to_nat (i_mat - 1)) ∧
        set_macro_xs (macro_xs st) st' = st
  | FatalError _ _ => False
  | Undefined =>
      ¬ (1 ≤ i_mat ≤ Z.of_nat (length (macro_xs st)) ∧ INT_MIN < gin)
  end.
Proof.
  unfold calculate_xs_c.
  cbv beta iota delta [mbind prog_bind get_globals defined modify].
  pose proof (handle_in_range (macro_xs st) i_mat) as Hrange.
  destruct (int_pred i_mat) as [j|] eqn:Hj; simpl in Hrange |- *; [|tauto].
  destruct (vec_at (macro_xs st) j) as [mat|] eqn:Hmat; simpl; [|tauto].
  unfold int_pred in Hj. case_decide; [|done]. simplify_eq.
  unfold int_pred. case_decide as Hgin; simpl; [|tauto].
  destruct (calculate_xs mat (gin - 1) sqrtkT uvw) as [mat' xs] eqn:Hcalc.
  simpl. exists mat. rewrite Hcalc. simpl.
  apply vec_at_Some in Hmat as Hmat'. destruct Hmat' as [_ Hmat'].
  split_and!; [done..| |apply only_table_changed_insert
              |apply set_macro_xs_undo].
  apply list_lookup_insert_eq. by apply lookup_lt_Some in Hmat'.
Qed.

(** ** The header on an empty grid *)

(** X21. When the grid is empty and the file's group structure is empty
    too, the bound [energy_bins.size() - 1] of the averaging loop wraps
    around to the largest [size_t], the loop is entered and reads
    [energy_bins[0]] of an empty vector: the behaviour of
    read_mg_cross_sections_header_c is undefined, whatever datasets the
    file has. *)
Theorem header_empty_grid_undefined file st n :
  attr_energy_groups file = Some n →
  attr_group_structure file = Some [] →
  energy_bins st = [] →
  size_t_sub (Z.of_nat (length (energy_bins st))) 1 = 2 ^ 64 - 1 ∧
  read_mg_cross_sections_header_c file st = Undefined.
Proof.
  intros Hn Hbins Hempty. split.
  - by rewrite Hempty.
  - by eapply read_header_empty_structure.
Qed.

(** ** Nuclides named out of order *)

(** X22. read_mgxs reads the table of a nuclide at the position of its
    index, while the tables are stored in the order in which the
    materials first name the nuclides.  So when the store is empty and
    the first nuclide of the first material does not have index 0, a
    library that passes the checks and has the nuclide's dataset makes
    read_mgxs read outside the store: its behaviour is undefined. *)
Theorem read_mgxs_first_nuclide_not_0 (fs : gmap string (hdf5_file G))
    st file mat mats i_nuc rest :
  fs !! path_cross_sections st = Some file →
  attr_filetype file = "mgxs"%string →
  attr_version file = VERSION_MGXS_LIBRARY →
  nuclides_MG st = [] →
  materials st = mat :: mats →
  nuclide_ mat = i_nuc :: rest →
  i_nuc ≠ 0 →
  (∀ names n, build_nuclide_names (nuclide_map st) = Some names →
              vec_at names i_nuc = Some n → object_exists file n = true) →
  read_mgxs fs st = Undefined.
Proof.
  intros Hfile Hty Hver Hempty Hmats Hnucs Hi Hex.
  pose proof (read_mgxs_cases fs st) as Hcases.
  rewrite Hfile, decide_True in Hcases by done.
  destruct (build_nuclide_names (nuclide_map st)) as [names|] eqn:Hnames;
    [|done].
  rewrite Hcases, Hmats. cbn [length seq for_each].
  assert (read_mgxs_nuclide file names (nuc_temps_of st) 0 i_nuc ∅ st =
          Undefined) as Hstep.
  { pose proof (read_mgxs_nuclide_spec file names (nuc_temps_of st) 0 i_nuc
                  ∅ st) as Hspec.
    unfold wp in Hspec.
    destruct (read_mgxs_nuclide _ _ _ _ _ _ st) as [seen' st'|msg st'|];
      [| |done]; exfalso.
    - destruct Hspec as (n & nuc & _ & Hstore & Hat & _).
      destruct Hstore as [(Hin & _)|(_ & _ & g & t & _ & _ & Hstore)];
        [by apply elem_of_empty in Hin|].
      rewrite Hstore, Hempty in Hat. apply vec_at_lt in Hat.
      simpl in Hat. lia.
    - destruct Hspec as (n & Hn & _ & Hnone & _).
      by rewrite (Hex names n eq_refl Hn) in Hnone. }
  unfold mbind, prog_bind.
  rewrite (read_mgxs_material_unfold file names (nuc_temps_of st) 0 mat ∅ st)
    by (by rewrite Hmats).
  rewrite Hnucs. cbn [for_each]. unfold mbind, prog_bind.
  by rewrite Hstep.
Qed.

End Interface.

(** * The properties on the small model *)

Module SmallModelRuns.
Import SmallModel.

Lemma read_mgxs_start :
  read_mgxs files start = Returns tt loaded.
Proof. vm_compute. reflexivity. Qed.

(** The example meets the conditions under which read_mgxs returns. *)
Lemma read_mgxs_start_returns :
  ∃ st', read_mgxs files start = Returns tt st'.
Proof.
  apply (read_mgxs_returns files start library
           ["U235"; "H1"]%string 2).
  - vm_compute. reflexivity.
  - reflexivity.
  - reflexivity.
  - vm_compute. reflexivity.
  - reflexivity.
  - apply NoDup_cons. split; [by intros ?%list_elem_of_singleton|].
    apply NoDup_singleton.
  - vm_compute. lia.
  - vm_compute. reflexivity.
  - simpl. lia.
  - intros k mat i n _ _ Hn. apply vec_at_Some in Hn as [_ Hn].
    apply list_elem_of_lookup_2 in Hn.
    apply elem_of_cons in Hn as [->|Hn]; [by vm_compute|].
    apply list_elem_of_singleton in Hn as ->. by vm_compute.
Qed.

Lemma table_get_xs_frame (nuc : table) x g po mu pd (m : int_mem) a :
  po ≠ Some a → pd ≠ Some a → (get_xs nuc x g po mu pd m).2 !! a = m !! a.
Proof.
  intros Hpo _. simpl. unfold table_get_xs. simpl.
  destruct po as [p|]; [|done]. apply lookup_insert_ne. congruence.
Qed.

Lemma read_mgxs_flags_fissionable_materials_witness :
  let table := nuclide_table library ["U235"; "H1"]%string
                 (nuc_temps_of start) in
  ∃ mat',
    materials loaded !! 0%nat = Some mat' ∧
    nuclide_ mat' = nuclide_ fuel ∧
    (∀ i_nuc, i_nuc ∈ nuclide_ fuel →
       ∃ nuc, table i_nuc = Some nuc ∧
              vec_at (nuclides_MG loaded) i_nuc = Some nuc ∧
              (fissionable nuc = true → fissionable_ mat' = true)) ∧
    ((∀ i_nuc nuc, i_nuc ∈ nuclide_ fuel → table i_nuc = Some nuc →
        fissionable nuc = false) →
     fissionable_ mat' = fissionable_ fuel).
Proof.
  apply (read_mgxs_flags_fissionable_materials
           files start loaded library ["U235"; "H1"]%string 0 fuel).
  - vm_compute. reflexivity.
  - vm_compute. reflexivity.
  - reflexivity.
  - vm_compute. reflexivity.
  - reflexivity.
Defined.

Lemma read_mgxs_instantiates_once_witness :
  ∃ added,
    nuclides_MG loaded = nuclides_MG start ++ added ∧
    ∀ k mat i_nuc n,
      materials start !! k = Some mat → i_nuc ∈ nuclide_ mat →
      vec_at ["U235"; "H1"]%string i_nuc = Some n →
      length (filter (λ nuc : table, name nuc = n) added) = 1%nat.
Proof.
  apply (read_mgxs_instantiates_once files start
           loaded library ["U235"; "H1"]%string).
  - intros n g t. reflexivity.
  - vm_compute. reflexivity.
  - vm_compute. reflexivity.
  - vm_compute. reflexivity.
Defined.

Lemma read_mgxs_version_mismatch_witness :
  ∃ msg st',
    read_mgxs files_v2 start = FatalError msg st' ∧
    nuclides_MG st' = nuclides_MG start ∧
    macro_xs st' = macro_xs start ∧
    energy_bins st' = energy_bins start ∧
    energy_bin_avg st' = energy_bin_avg start ∧
    rev_energy_bins st' = rev_energy_bins start ∧
    st' = start.
Proof.
  apply (read_mgxs_version_mismatch files_v2 start library_v2).
  - vm_compute. reflexivity.
  - vm_compute. discriminate.
Defined.

Lemma read_mgxs_missing_dataset_is_fatal_witness :
  ∃ n' st',
    read_mgxs files_no_H1 start =
    FatalError (missing_data_msg n') st' ∧
    object_exists library_no_H1 n' = false ∧
    (∃ k' mat' i', materials start !! k' = Some mat' ∧ i' ∈ nuclide_ mat' ∧
                   vec_at ["U235"; "H1"]%string i' = Some n') ∧
    (∀ temperature,
       add_mgxs_c library_no_H1 n' temperature st' =
       FatalError (missing_data_msg n') st') ∧
    macro_xs st' = macro_xs start ∧
    ∃ ns added,
      nuclides_MG st' = nuclides_MG start ++ added ∧
      loaded_from library_no_H1 ns added.
Proof.
  apply (read_mgxs_missing_dataset_is_fatal
           files_no_H1 start library_no_H1 ["U235"; "H1"]%string
           0 fuel 1 "H1"%string).
  - vm_compute. reflexivity.
  - reflexivity.
  - reflexivity.
  - vm_compute. reflexivity.
  - reflexivity.
  - vm_compute. right. left.
  - reflexivity.
  - vm_compute. reflexivity.
  - vm_compute. discriminate.
Defined.

Lemma read_header_start :
  read_mg_cross_sections_header_c library start = Returns tt with_grid.
Proof. vm_compute. reflexivity. Qed.

Lemma header_grid_size_and_order_witness :
  ∃ st',
    read_mg_cross_sections_header_c library start = Returns tt st' ∧
    num_energy_groups st' = 2 ∧
    energy_bins st' = reverse [2e7; 0.625; 0]%float ∧
    Z.of_nat (length (energy_bins st')) = num_energy_groups st' + 1 ∧
    strictly_increasing (energy_bins st') = true.
Proof.
  apply (header_grid_size_and_order library start 2 [2e7; 0.625; 0]%float).
  - reflexivity.
  - reflexivity.
  - reflexivity.
  - unfold INT_MAX. lia.
  - vm_compute. reflexivity.
  - discriminate.
  - reflexivity.
Defined.

Lemma header_grid_reverses_file_witness :
  ∃ st',
    read_mg_cross_sections_header_c library start = Returns tt st' ∧
    num_energy_groups st' = 2 ∧
    rev_energy_bins st' = [2e7; 0.625; 0]%float ∧
    Z.of_nat (length (energy_bins st')) = 2 + 1 ∧
    ∀ i, 0 ≤ i ≤ 2 →
      ∃ e, vec_at (energy_bins st') i = Some e ∧
           vec_at (rev_energy_bins st') (num_energy_groups st' - i) = Some e.
Proof.
  apply (header_grid_reverses_file library start 2 [2e7; 0.625; 0]%float).
  - reflexivity.
  - reflexivity.
  - reflexivity.
  - unfold INT_MAX. lia.
  - discriminate.
  - reflexivity.
Defined.

Lemma header_group_average_is_midpoint_witness :
  ∃ st',
    read_mg_cross_sections_header_c library start = Returns tt st' ∧
    num_energy_groups st' = 2 ∧
    energy_bins st' = reverse [2e7; 0.625; 0]%float ∧
    Z.of_nat (length (energy_bin_avg st')) = 2 ∧
    ∀ g, 0 ≤ g < 2 →
      ∃ lo hi,
        vec_at (energy_bins st') g = Some lo ∧
        vec_at (energy_bins st') (g + 1) = Some hi ∧
        vec_at (energy_bin_avg st') g = Some (0.5 * (lo + hi))%float.
Proof.
  apply (header_group_average_is_midpoint library start 2
           [2e7; 0.625; 0]%float).
  - reflexivity.
  - reflexivity.
  - reflexivity.
  - unfold INT_MAX. lia.
  - discriminate.
  - reflexivity.
  - reflexivity.
Defined.

Lemma lookups_translate_to_0based_witness :
  ∃ gout_c_p dg_c_p mem_c,
    passes_0based caller_mem (Some 5%positive) mem_c gout_c_p ∧
    passes_0based caller_mem None mem_c dg_c_p ∧
    fst <$> get_nuclide_xs_c loaded 2 0 1 (Some 5%positive) None None
              caller_mem =
    Some (get_xs H1_table 0 (1 - 1) gout_c_p None dg_c_p mem_c).1.
Proof.
  apply (proj1 lookups_translate_to_0based loaded 2 0 1 (Some 5%positive)
           None None caller_mem H1_table).
  - reflexivity.
  - unfold INT_MIN. lia.
  - vm_compute. reflexivity.
  - reflexivity.
Defined.

Lemma create_all_fuel_void :
  create_all_macro_xs [void_args; fuel_args] loaded = Returns tt with_macros.
Proof. vm_compute. reflexivity. Qed.

Lemma create_macro_xs_c_keeps_positions_witness :
  ∃ entry,
    macro_xs with_macros !! 0%nat = Some entry ∧
    macro_entry (nuclides_MG loaded) void_args = Some entry ∧
    (arg_n_temps void_args = 0 → entry = Mgxs_blank).
Proof.
  apply (proj2 (proj2 (proj2 create_macro_xs_c_keeps_positions)
           [void_args; fuel_args] loaded _ eq_refl create_all_fuel_void)
           0%nat void_args).
  reflexivity.
Defined.

Lemma get_nuclide_xs_c_loaded :
  get_nuclide_xs_c loaded 1 0 1 (Some 5%positive) None (Some 6%positive)
    caller_mem = Some (233%float, caller_mem).
Proof. vm_compute. reflexivity. Qed.

Lemma lookups_leave_caller_ints_unchanged_witness :
  ∃ xs mem',
    get_nuclide_xs_c loaded 1 0 1 (Some 5%positive) None (Some 6%positive)
      caller_mem = Some (xs, mem') ∧
    (∀ p, Some 5%positive = Some p → mem' !! p = caller_mem !! p) ∧
    (∀ p, Some 6%positive = Some p → mem' !! p = caller_mem !! p) ∧
    mem' = caller_mem.
Proof.
  exists 233%float, caller_mem. split; [apply get_nuclide_xs_c_loaded|].
  apply (lookups_leave_caller_ints_unchanged loaded 1 0 1 (Some 5%positive)
           None (Some 6%positive) caller_mem 233%float caller_mem).
  - apply table_get_xs_frame.
  - left. apply get_nuclide_xs_c_loaded.
Defined.

Lemma header_no_dataset_fatal_after_grid_witness :
  ∃ st',
    read_mg_cross_sections_header_c library_no_data start =
    FatalError
      "At least one MGXS data set must be present in mgxs library file!" st' ∧
    num_energy_groups st' = 2 ∧
    rev_energy_bins st' = [2e7; 0.625; 0]%float ∧
    energy_bins st' = energy_bins start ++ reverse [2e7; 0.625; 0]%float ∧
    libraries st' = libraries start ∧
    ∃ avgs,
      energy_bin_avg st' = energy_bin_avg start ++ avgs ∧
      length avgs = (length (energy_bins st') - 1)%nat ∧
      ∀ k avg, avgs !! k = Some avg →
        bin_midpoint (energy_bins st') (Z.of_nat k) = Some avg.
Proof.
  apply (header_no_dataset_fatal_after_grid library_no_data start 2
           [2e7; 0.625; 0]%float).
  - reflexivity.
  - reflexivity.
  - vm_compute. split; discriminate.
  - reflexivity.
Defined.

Lemma header_missing_attribute_witness :
  ∃ msg st',
    read_mg_cross_sections_header_c library_no_structure start =
    FatalError msg st' ∧
    energy_bins st' = energy_bins start ∧
    energy_bin_avg st' = energy_bin_avg start ∧
    rev_energy_bins st' = rev_energy_bins start ∧
    libraries st' = libraries start ∧
    st' = set_num_energy_groups 2 start.
Proof.
  apply (header_missing_attribute library_no_structure start).
  right. reflexivity.
Defined.

Lemma header_appends_to_grid_witness :
  ∃ st',
    read_mg_cross_sections_header_c library with_grid = Returns tt st' ∧
    num_energy_groups st' = 2 ∧
    rev_energy_bins st' = [2e7; 0.625; 0]%float ∧
    energy_bins st' = energy_bins with_grid ++ reverse [2e7; 0.625; 0]%float ∧
    ∃ avgs,
      energy_bin_avg st' = energy_bin_avg with_grid ++ avgs ∧
      length avgs = (length (energy_bins st') - 1)%nat ∧
      ∀ k avg, avgs !! k = Some avg →
        bin_midpoint (energy_bins st') (Z.of_nat k) = Some avg.
Proof.
  apply (header_appends_to_grid library with_grid 2 [2e7; 0.625; 0]%float).
  - reflexivity.
  - reflexivity.
  - vm_compute. split; discriminate.
  - discriminate.
Defined.

Lemma header_catalogue_witness :
  ∃ st',
    read_mg_cross_sections_header_c library start = Returns tt st' ∧
    libraries st' =
    libraries start ++
      ((λ name, Mk_Library neutron [name]) <$> group_names library) ∧
    length (libraries st') =
    (length (libraries start) + length (file_groups library))%nat ∧
    path_cross_sections st' = path_cross_sections start ∧
    nuclide_map st' = nuclide_map start ∧
    materials st' = materials start ∧
    nuclides_MG st' = nuclides_MG start ∧
    macro_xs st' = macro_xs start.
Proof.
  apply (header_catalogue library start 2 [2e7; 0.625; 0]%float).
  - reflexivity.
  - reflexivity.
  - vm_compute. split; discriminate.
  - discriminate.
Defined.

Lemma read_mgxs_loads_only_referenced_witness :
  match read_mgxs files start with
  | Returns _ st' | FatalError _ st' =>
      ∃ added,
        nuclides_MG st' = nuclides_MG start ++ added ∧
        ∀ nuc, nuc ∈ added →
          ∃ k mat i_nuc n g t,
            materials start !! k = Some mat ∧ i_nuc ∈ nuclide_ mat ∧
            vec_at ["U235"; "H1"]%string i_nuc = Some n ∧
            open_group library n = Some g ∧
            vec_at (nuc_temps_of start) i_nuc = Some t ∧
            nuc = Mgxs_from_hdf5 n g t
  | Undefined => True
  end.
Proof.
  apply (read_mgxs_loads_only_referenced files start library
           ["U235"; "H1"]%string).
  - vm_compute. reflexivity.
  - vm_compute. reflexivity.
Defined.

(** The nuclide map of the example numbers its names 0 and 1. *)
Lemma start_map_entries n i :
  nuclide_map start !! n = Some i →
  (n = "U235"%string ∧ i = 0) ∨ (n = "H1"%string ∧ i = 1).
Proof.
  simpl. intros Hn.
  apply lookup_insert_Some in Hn as [[<- <-]|[_ Hn]]; [by left|].
  apply lookup_singleton_Some in Hn as [<- <-]. by right.
Qed.

Lemma start_map_injective n1 n2 i :
  nuclide_map start !! n1 = Some i → nuclide_map start !! n2 = Some i →
  n1 = n2.
Proof.
  intros [[-> ->]|[-> ->]]%start_map_entries
         [[-> ?]|[-> ?]]%start_map_entries; done.
Qed.

Lemma build_nuclide_names_inverts_map_witness :
  (∀ n i, nuclide_map start !! n = Some i ↔
          vec_at ["U235"; "H1"]%string i = Some n) ∧
  NoDup ["U235"; "H1"]%string.
Proof.
  apply (build_nuclide_names_inverts_map (nuclide_map start)
           ["U235"; "H1"]%string).
  - apply start_map_injective.
  - vm_compute. reflexivity.
Defined.

Lemma read_mgxs_returns_on_valid_input_witness :
  ∃ st', read_mgxs files start = Returns tt st' ∧
         length (nuclides_MG st') = 2%nat.
Proof.
  apply (read_mgxs_returns_on_valid_input files start library 2).
  - vm_compute. reflexivity.
  - reflexivity.
  - reflexivity.
  - intros n i [[-> ->]|[-> ->]]%start_map_entries; vm_compute;
      split; (discriminate || reflexivity).
  - apply start_map_injective.
  - vm_compute. lia.
  - reflexivity.
  - vm_compute. reflexivity.
  - vm_compute. lia.
  - intros k mat i n _ _ [[-> ->]|[-> ->]]%start_map_entries;
      vm_compute; reflexivity.
Defined.

Lemma query_fissionable_c_agrees_with_flag_witness :
  ∃ mat',
    materials loaded !! 0%nat = Some mat' ∧
    query_fissionable_c (Z.of_nat (length (nuclide_ fuel)))
      (handles_of (nuclide_ fuel)) loaded =
    Returns (fissionable_ mat') loaded.
Proof.
  apply (query_fissionable_c_agrees_with_flag files start loaded library
           ["U235"; "H1"]%string 0 fuel).
  - vm_compute. reflexivity.
  - vm_compute. reflexivity.
  - reflexivity.
  - apply read_mgxs_start.
  - reflexivity.
  - reflexivity.
Defined.

Lemma create_macro_xs_c_after_load_witness :
  ∃ tables,
    Forall2 (λ i nuc, nuclide_table library ["U235"; "H1"]%string
                        (nuc_temps_of start) i = Some nuc)
      (nuclide_ fuel) tables ∧
    create_macro_xs_c "fuel" (Z.of_nat (length (nuclide_ fuel)))
      (handles_of (nuclide_ fuel)) 1 [294]%float [0.25; 0.5]%float
      0.125%float 0 loaded =
    Returns tt
      (set_macro_xs
         (macro_xs loaded ++
          [Mgxs_macro "fuel" (take (Z.to_nat 1) [294]%float) tables
             (take (length (nuclide_ fuel)) [0.25; 0.5]%float)]) loaded).
Proof.
  apply (create_macro_xs_c_after_load files start loaded library
           ["U235"; "H1"]%string 0 fuel).
  - vm_compute. reflexivity.
  - vm_compute. reflexivity.
  - reflexivity.
  - apply read_mgxs_start.
  - reflexivity.
  - simpl. lia.
  - simpl. lia.
Defined.

Lemma NUL_not_in_U235 : NUL ∉ String.list_ascii_of_string "U235".
Proof.
  intros Hin. simpl in Hin.
  repeat (apply elem_of_cons in Hin as [Hin|Hin]; [discriminate|]).
  by apply elem_of_nil in Hin.
Qed.

Lemma NUL_not_in_H1 : NUL ∉ String.list_ascii_of_string "H1".
Proof.
  intros Hin. simpl in Hin.
  repeat (apply elem_of_cons in Hin as [Hin|Hin]; [discriminate|]).
  by apply elem_of_nil in Hin.
Qed.

Lemma get_name_c_pads_name_witness :
  get_name_c loaded 1 6 name_array =
  Done (String.list_ascii_of_string "U235" ++ [" "; NUL; "x"; "x"]%char).
Proof.
  rewrite (get_name_c_pads_name loaded 1 6 name_array U235_table).
  - vm_compute. reflexivity.
  - reflexivity.
  - apply NUL_not_in_U235.
  - simpl. lia.
Defined.

Lemma get_name_c_length_error_witness :
  get_name_c loaded 1 0 name_array = Throws "std::length_error".
Proof.
  apply (get_name_c_length_error loaded 1 0 name_array).
  unfold INT_MIN. lia.
Defined.

Lemma get_name_c_undefined_cases_witness :
  (get_name_c loaded 1 3 name_array = UB ↔
   Z.of_nat (length name_array) < 3 ∨
   match vec_at (nuclides_MG loaded) (1 - 1) with
   | None => True
   | Some nuc =>
       (length name_array ≤
        length (String.list_ascii_of_string (name nuc)))%nat
   end) ∧
  ∀ nuc, vec_at (nuclides_MG loaded) (1 - 1) = Some nuc →
    let s := String.list_ascii_of_string (name nuc) in
    (Z.to_nat 3 ≤ length s < length name_array)%nat →
    get_name_c loaded 1 3 name_array =
    Done (s ++ " "%char :: drop (S (length s)) name_array).
Proof.
  apply (get_name_c_undefined_cases loaded 1 3 name_array).
  - lia.
  - intros nuc [= <-]. apply NUL_not_in_U235.
Defined.

Lemma general_methods_after_load_witness :
  ∃ nuc,
    nuclide_table library ["U235"; "H1"]%string (nuc_temps_of start) 1 =
    Some nuc ∧
    get_awr_c loaded (1 + 1) = Some (awr nuc) ∧
    get_name_c loaded (1 + 1) 6 name_array =
    Done (String.list_ascii_of_string "H1" ++
          [" "; " "; " "; NUL; "x"; "x"]%char).
Proof.
  destruct (general_methods_after_load files start loaded library
              ["U235"; "H1"]%string 0 fuel 1 "H1" 6 name_array)
    as (nuc & Htable & Hawr & Hname).
  - intros n g t. reflexivity.
  - vm_compute. reflexivity.
  - vm_compute. reflexivity.
  - reflexivity.
  - apply read_mgxs_start.
  - reflexivity.
  - right. left.
  - reflexivity.
  - apply NUL_not_in_H1.
  - simpl. lia.
  - exists nuc. split; [exact Htable|]. split; [exact Hawr|].
    rewrite Hname. vm_compute. reflexivity.
Defined.

Lemma lookups_defined_iff_witness :
  (is_Some (get_nuclide_xs_c loaded 1 0 1 (Some 5%positive) None
              (Some 6%positive) caller_mem) ↔
   1 ≤ 1 ≤ Z.of_nat (length (nuclides_MG loaded)) ∧ INT_MIN < 1 ∧
   arg_ok caller_mem (Some 5%positive) = true ∧
   arg_ok caller_mem (Some 6%positive) = true) ∧
  (is_Some (get_macro_xs_c loaded 1 0 1 (Some 5%positive) None
              (Some 6%positive) caller_mem) ↔
   1 ≤ 1 ≤ Z.of_nat (length (macro_xs loaded)) ∧ INT_MIN < 1 ∧
   arg_ok caller_mem (Some 5%positive) = true ∧
   arg_ok caller_mem (Some 6%positive) = true).
Proof.
  apply (lookups_defined_iff loaded 1 0 1 (Some 5%positive) None
           (Some 6%positive) caller_mem).
  intros p [= <-]. vm_compute. by eexists.
Defined.

Lemma header_empty_grid_undefined_witness :
  size_t_sub (Z.of_nat (length (energy_bins start))) 1 = 2 ^ 64 - 1 ∧
  read_mg_cross_sections_header_c library_empty_structure start = Undefined.
Proof.
  apply (header_empty_grid_undefined library_empty_structure start 0).
  - reflexivity.
  - reflexivity.
  - reflexivity.
Defined.

Lemma read_mgxs_first_nuclide_not_0_witness :
  read_mgxs files start_water_first = Undefined.
Proof.
  apply (read_mgxs_first_nuclide_not_0 files start_water_first library
           water [fuel] 1 []).
  - vm_compute. reflexivity.
  - reflexivity.
  - reflexivity.
  - reflexivity.
  - reflexivity.
  - reflexivity.
  - discriminate.
  - intros names n Hnames Hn. vm_compute in Hnames.
    injection Hnames as <-. vm_compute in Hn. injection Hn as <-.
    vm_compute. reflexivity.
Defined.

End SmallModelRuns.
